(** * A shallow embedding of the AI Athlete video-analysis backend

    Sources: [app/main.py] (job store, background job, geometry helpers,
    recommendation rules, shape heuristic), [app/sport_detect.py] and
    [app/pose_overlay.py] (motion heuristics), [app/focus_rules.py]
    (focus-tip catalog).

    Conventions of the embedding.
    - Python floats are modelled by exact numbers: [R] where the code takes
      square roots and inverse cosines (landmark geometry and everything
      computed from it), [Q] where it only divides (the shape heuristic and
      the median examples).  Rounding is not modelled.
    - Python [str] values are lists of Unicode code points ([text]).
    - Python [None] is [None] of [option]. *)

From Stdlib Require Import ZArith QArith Reals Lra Lia List Sorting Permutation.
From stdpp Require Import base gmap strings list.
Import ListNotations.

Abbreviation text := (list Z).

(** ASCII literals as code-point lists. *)
Fixpoint cps (s : string) : text :=
  match s with
  | EmptyString => []
  | String c s' => Z.of_nat (Ascii.nat_of_ascii c) :: cps s'
  end.

(* ------------------------------------------------------------------ *)
(** ** main.py: geometry helpers ([_dist], [_angle]) *)

Module Geometry.
Local Open Scope R_scope.

Definition point : Type := (R * R)%type.

(** [math.degrees] *)
Definition degrees (x : R) : R := x * 180 / PI.

(** [_dist(a, b) = math.hypot(a[0] - b[0], a[1] - b[1])] *)
Definition _dist (a b : point) : R :=
  sqrt ((fst a - fst b) ^ 2 + (snd a - snd b) ^ 2).

(** [_angle(a, b, c)]: angle (deg) at [b] formed by [a-b-c]. *)
Definition _angle (a b c : point) : option R :=
  let ab := _dist a b in
  let cb := _dist c b in
  if Req_EM_T ab 0 then None
  else if Req_EM_T cb 0 then None
  else
    let ac := _dist a c in
    let cosv := (ab ^ 2 + cb ^ 2 - ac ^ 2) / (2 * ab * cb) in
    let cosv := Rmax (-1) (Rmin 1 cosv) in
    Some (degrees (acos cosv)).

End Geometry.

(* ------------------------------------------------------------------ *)
(** ** main.py: [_median]

    [_median] is written once for any element type with Python's [<=]
    ([leb], used by [list.sort]) and the mean of two values
    ([(a + b) / 2.0]). *)

Section MedianDef.
Context {A : Type} (leb : A -> A -> bool) (mean2 : A -> A -> A).

(** [[x for x in xs if x is not None]] *)
Fixpoint present (xs : list (option A)) : list A :=
  match xs with
  | [] => []
  | Some x :: r => x :: present r
  | None :: r => present r
  end.

(** [list.sort]: a stable sort by [<=] (insertion sort; for a total order
    every stable sort returns the same list). *)
Fixpoint insert_sorted (x : A) (l : list A) : list A :=
  match l with
  | [] => [x]
  | y :: l' => if leb x y then x :: l else y :: insert_sorted x l'
  end.

Fixpoint sort (l : list A) : list A :=
  match l with
  | [] => []
  | x :: l' => insert_sorted x (sort l')
  end.

Definition _median (xs : list (option A)) : option A :=
  let xs := present xs in
  match xs with
  | [] => None
  | _ =>
    let xs := sort xs in
    let n := length xs in
    let m := Nat.div n 2 in
    if Nat.odd n then nth_error xs m
    else match nth_error xs (m - 1), nth_error xs m with
         | Some a, Some b => Some (mean2 a b)
         | _, _ => None (* IndexError: unreachable, m - 1 and m are in range *)
         end
  end.

End MedianDef.

(** The median on rationals, used for the numeric examples. *)
Definition median_Q : list (option Q) -> option Q :=
  _median Qle_bool (fun a b => ((a + b) / 2)%Q).

(** The median on reals, used by [draw_pose_overlay]. *)
Definition Rleb (x y : R) : bool := if Rle_dec x y then true else false.
Definition Rltb (x y : R) : bool := if Rlt_dec x y then true else false.

Definition median_R : list (option R) -> option R :=
  _median Rleb (fun a b => ((a + b) / 2)%R).

(* ------------------------------------------------------------------ *)
(** ** main.py: [simple_auto_sport] (shape heuristic)

    [ar = width / float(height or 1)]; the float literals [0.8] and [1.6]
    are the rationals [4/5] and [8/5]. *)

Definition simple_auto_sport (width height : Z) (fps : R) : text :=
  let h := if Z.eqb height 0 then 1%Z else height in
  let ar := (inject_Z width / inject_Z h)%Q in
  if Qlt_le_dec ar (4 # 5) then cps "running"
  else if Qlt_le_dec (8 # 5) ar then cps "soccer"
  else cps "tennis".

(* ------------------------------------------------------------------ *)
(** ** Landmarks

    A detector result [res.pose_landmarks.landmark] is a list of 33
    landmarks indexed by [PoseLandmark]; the record keeps the named points
    the code reads, as [(lm.x, lm.y)]. *)

Record landmarks := mk_landmarks {
  LEFT_SHOULDER : Geometry.point;
  RIGHT_SHOULDER : Geometry.point;
  LEFT_ELBOW : Geometry.point;
  RIGHT_ELBOW : Geometry.point;
  LEFT_WRIST : Geometry.point;
  LEFT_HIP : Geometry.point;
  RIGHT_HIP : Geometry.point;
  LEFT_KNEE : Geometry.point;
  RIGHT_KNEE : Geometry.point;
  LEFT_ANKLE : Geometry.point;
  RIGHT_ANKLE : Geometry.point
}.

(* ------------------------------------------------------------------ *)
(** ** sport_detect.py: [detect_sport_from_gcs] (motion heuristic)

    Downloading the blob and decoding it are external; the embedding takes
    the sequence of detector results, one per decoded frame ([None] when
    [res.pose_landmarks] is empty). *)

Module SportDetect.
Local Open Scope R_scope.

(** [math.dist] *)
Definition dist (p q : Geometry.point) : R :=
  sqrt ((fst p - fst q) ^ 2 + (snd p - snd q) ^ 2).

(** [_angle(p1, p2, p3)] *)
Definition _angle (p1 p2 p3 : Geometry.point) : R :=
  let a := dist p1 p2 in
  let b := dist p2 p3 in
  let c := dist p1 p3 in
  let denom := Rmax (2 * a * b) 1e-6 in
  let cosv := Rmax (Rmin ((a * a + b * b - c * c) / denom) 1) (-1) in
  Geometry.degrees (acos cosv).

(** The per-frame test of the loop body. *)
Definition is_hit (lm : landmarks) : bool :=
  let shoulder := LEFT_SHOULDER lm in
  let elbow := LEFT_ELBOW lm in
  let wrist := LEFT_WRIST lm in
  let arm_len := dist elbow shoulder in
  let horiz := Rabs (fst elbow - fst shoulder) in
  let ang := _angle shoulder elbow wrist in
  Rltb 0.20 arm_len && Rltb 0.15 horiz && Rltb 60 ang && Rltb ang 120.

Definition max_frames : nat := 120.

(** [while cap.isOpened() and frames < max_frames: ...]; returns
    [(frames, tennis_score)]. *)
Fixpoint scan (video : list (option landmarks)) (frames tennis_score : nat)
  : nat * nat :=
  match video with
  | [] => (frames, tennis_score)
  | res :: rest =>
    if Nat.ltb frames max_frames then
      let tennis_score :=
        match res with
        | Some lm => if is_hit lm then S tennis_score else tennis_score
        | None => tennis_score
        end in
      scan rest (S frames) tennis_score
    else (frames, tennis_score)
  end.

(** [int(frames * 0.2)] is [frames / 5]. *)
Definition detect_sport_from_gcs (video : list (option landmarks)) : text :=
  let '(frames, tennis_score) := scan video 0 0 in
  if Nat.leb (Nat.max 6 (Nat.div frames 5)) tennis_score
  then cps "tennis" else cps "unknown".

End SportDetect.

(* ------------------------------------------------------------------ *)
(** ** pose_overlay.py: [_guess_sport_from_pose_series] (motion heuristic) *)

Module PoseOverlay.
Local Open Scope R_scope.

(** [_angle(a, b, c)]: angle at [b] from the two edge vectors. *)
Definition _angle (a b c : Geometry.point) : R :=
  let v1 := (fst a - fst b, snd a - snd b) in
  let v2 := (fst c - fst b, snd c - snd b) in
  let n1 := sqrt (fst v1 ^ 2 + snd v1 ^ 2) in
  let n1 := if Req_EM_T n1 0 then 1e-6 else n1 in
  let n2 := sqrt (fst v2 ^ 2 + snd v2 ^ 2) in
  let n2 := if Req_EM_T n2 0 then 1e-6 else n2 in
  let dot := (fst v1 * fst v2 + snd v1 * snd v2) / (n1 * n2) in
  let dot := Rmax (Rmin dot 1) (-1) in
  Geometry.degrees (acos dot).

Definition is_hit (lm : landmarks) : bool :=
  let LSH := LEFT_SHOULDER lm in
  let LEL := LEFT_ELBOW lm in
  let LWR := LEFT_WRIST lm in
  let arm_len := sqrt ((fst LEL - fst LSH) ^ 2 + (snd LEL - snd LSH) ^ 2) in
  let horiz := Rabs (fst LEL - fst LSH) in
  let ang := _angle LSH LEL LWR in
  Rltb 0.20 arm_len && Rltb 0.15 horiz && Rltb 60 ang && Rltb ang 120.

(** [int(0.2 * total)] is [total / 5]. *)
Definition _guess_sport_from_pose_series (pose_landmarks_list : list landmarks)
  : text :=
  match pose_landmarks_list with
  | [] => cps "unknown"
  | _ =>
    let hits := length (List.filter is_hit pose_landmarks_list) in
    let total := length pose_landmarks_list in
    if Nat.leb (Nat.max 6 (Nat.div total 5)) hits
    then cps "tennis" else cps "unknown"
  end.

End PoseOverlay.

(* ------------------------------------------------------------------ *)
(** ** Python string primitives on code points *)

Module PyStr.
Local Open Scope Z_scope.

(** [str.isspace] for a single code point (Python's whitespace set). *)
Definition is_space (c : Z) : bool :=
  ((9 <=? c) && (c <=? 13)) || ((28 <=? c) && (c <=? 32)) || (c =? 133)
  || (c =? 160) || (c =? 5760) || ((8192 <=? c) && (c <=? 8202))
  || (c =? 8232) || (c =? 8233) || (c =? 8239) || (c =? 8287) || (c =? 12288).

(** [str.lower] on one code point: the ASCII and Latin-1 upper-case letters
    are mapped to their lower-case forms; the rest of Python's Unicode case
    table is not modelled (other code points are left unchanged).  Python
    also lowers capitals beyond Latin-1 (U+212A KELVIN SIGN to 'k'), maps
    U+0130 to two code points and lowers U+03A3 by context (final sigma);
    none of this is modelled. *)
Definition lower_cp (c : Z) : Z :=
  if (65 <=? c) && (c <=? 90) then c + 32
  else if (192 <=? c) && (c <=? 222) && negb (c =? 215) then c + 32
  else c.

Definition lower (s : text) : text := map lower_cp s.

Fixpoint lstrip (s : text) : text :=
  match s with
  | [] => []
  | c :: s' => if is_space c then lstrip s' else s
  end.

(** [str.strip()] *)
Definition strip (s : text) : text := rev (lstrip (rev (lstrip s))).

(** [s or d] for an optional string [s] ([None] and [""] are falsy). *)
Definition py_or (s : option text) (d : text) : text :=
  match s with
  | Some ((_ :: _) as t) => t
  | _ => d
  end.

(** Python slicing [l[:k]]. *)
Definition take {A} (k : Z) (l : list A) : list A :=
  if (0 <=? k)%Z then firstn (Z.to_nat k) l
  else firstn (Z.to_nat (Z.of_nat (length l) + k)) l.

Definition text_eqb (s t : text) : bool :=
  bool_decide (s = t).

(** [k in d] / [d[k]] for a dict kept as an association list. *)
Fixpoint dict_get {V} (k : text) (d : list (text * V)) : option V :=
  match d with
  | [] => None
  | (k', v) :: d' => if text_eqb k k' then Some v else dict_get k d'
  end.

End PyStr.

(* ------------------------------------------------------------------ *)
(** ** focus_rules.py *)

Module FocusRules.
Import PyStr.
Local Open Scope Z_scope.

Definition RECOMMENDATIONS_DB : list (text * list (text * list text)) := [
  (cps "tennis", [
    (cps "swing", [
      cps "Keep elbow high through contact to avoid power loss.";
      cps "Brush up on the ball for more topspin (wrist snap).";
      cps "Finish over the shoulder for consistent follow-through."]);
    (cps "footwork", [
      cps "Add a split step before opponent contact for quicker reactions.";
      cps "Shorten recovery steps and stay centered after the shot.";
      cps "Transfer weight to the front foot at contact for balance."]);
    (cps "preparation", [
      cps "Coil shoulders ~90" ++ [176] ++ cps " on takeback to load torque.";
      cps "Lower ready position to improve anticipation.";
      cps "Check grip (semi-western recommended for topspin)."])])].

(** [{"id": i, "text": t}] *)
Record tip := mk_tip { tip_id : Z; tip_text : text }.

(** [enumerate] *)
Fixpoint enumerate_from (i : Z) (l : list text) : list tip :=
  match l with
  | [] => []
  | t :: l' => mk_tip i t :: enumerate_from (i + 1) l'
  end.

Definition general_tip : text :=
  cps "General tip: keep movements controlled and repeatable.".

Definition no_tips_text (focus : text) : text :=
  cps "No specific tips for '" ++ focus ++ cps "'. Try another focus.".

Definition get_focus_recommendations (sport focus : option text) (limit : Z)
  : list tip :=
  let sport := strip (lower (py_or sport [])) in
  let focus := strip (lower (py_or focus [])) in
  match dict_get sport RECOMMENDATIONS_DB with
  | None => [mk_tip 0 general_tip]
  | Some by_focus =>
    match dict_get focus by_focus with
    | None => [mk_tip 0 (no_tips_text focus)]
    | Some all_tips =>
      let tips := take limit all_tips in
      enumerate_from 0 tips
    end
  end.

End FocusRules.

(* ------------------------------------------------------------------ *)
(** ** main.py: [draw_pose_overlay], [coaching_tips], the recommendation
    rules and the background job [process_job] *)

Module Pipeline.
Import PyStr FocusRules.
Local Open Scope R_scope.

(** What [cv2.VideoCapture] and the pose detector yield for a clip: frame
    size, [CAP_PROP_FPS] and one detector result per decoded frame. *)
Record video := mk_video {
  v_width : Z;
  v_height : Z;
  v_fps : R;
  v_frames : list (option landmarks)
}.

Record metrics_calc := mk_metrics_calc {
  knee_angle_left_median : option R;
  knee_angle_right_median : option R;
  elbow_drop_median : option R;
  stance_width_ratio_median : option R
}.

Record meta := mk_meta {
  m_frames : nat;
  m_width : Z;
  m_height : Z;
  m_fps : R;
  m_metrics_calc : metrics_calc
}.

(** Elbow drop of one frame.  [(RS and RE)] tests two 2-tuples, which are
    always truthy, so both sides are computed and the larger is kept. *)
Definition frame_elbow_height (lm : landmarks) : option R :=
  let eh_R := snd (RIGHT_ELBOW lm) - snd (RIGHT_SHOULDER lm) in
  let eh_L := snd (LEFT_ELBOW lm) - snd (LEFT_SHOULDER lm) in
  Some (Rmax eh_L eh_R).

(** Stance sample of one frame: appended only when [hip_w] is truthy and
    positive ([ankle_w] is never [None]). *)
Definition frame_stance_width (lm : landmarks) : list (option R) :=
  let hip_w := Geometry._dist (LEFT_HIP lm) (RIGHT_HIP lm) in
  let ankle_w := Geometry._dist (LEFT_ANKLE lm) (RIGHT_ANKLE lm) in
  if Rltb 0 hip_w then [Some (ankle_w / hip_w)] else [].

Definition draw_pose_overlay (v : video) : meta :=
  let fps := if Req_EM_T (v_fps v) 0 then 24 else v_fps v in
  let lms_list := present (v_frames v) in
  let knees_L := map (fun lm => Geometry._angle (LEFT_HIP lm) (LEFT_KNEE lm) (LEFT_ANKLE lm)) lms_list in
  let knees_R := map (fun lm => Geometry._angle (RIGHT_HIP lm) (RIGHT_KNEE lm) (RIGHT_ANKLE lm)) lms_list in
  let elbow_height := map frame_elbow_height lms_list in
  let stance_width := flat_map frame_stance_width lms_list in
  mk_meta (length (v_frames v)) (v_width v) (v_height v) fps
    (mk_metrics_calc (median_R knees_L) (median_R knees_R)
                     (median_R elbow_height) (median_R stance_width)).

Record generic_tips := mk_generic_tips { g_summary : text; g_drills : list text }.

Definition coaching_tips (sport : text) : generic_tips :=
  if text_eqb sport (cps "tennis") then
    mk_generic_tips (cps "Focus on stance & shoulder rotation.")
      [cps "Shadow swings x20"; cps "Split-step timing 2x2min"; cps "Serve toss consistency 10x"]
  else if text_eqb sport (cps "soccer") then
    mk_generic_tips (cps "Improve stride rhythm and hip-knee alignment.")
      [cps "Cone dribbles 3x"; cps "Wall passes 50x"; cps "Sprint mechanics A-skips 2x20m"]
  else
    mk_generic_tips (cps "Keep a tall posture and steady cadence.")
      [cps "Cadence 170" ++ [8211%Z] ++ cps "180bpm for 5min"; cps "A/B skips 2x20m"; cps "Ankling 2x20m"].

Definition TIP_BEND : text :=
  cps "Bend your knees ~10" ++ [8211%Z] ++ cps "20" ++ [176%Z]
  ++ cps " more during preparation for better stability.".
Definition TIP_ELBOW : text :=
  cps "Keep your hitting elbow higher (closer to shoulder height) through the swing.".
Definition TIP_STANCE : text :=
  cps "Adopt a wider base (increase ankle distance) to improve balance and power transfer.".

(** Python truthiness of a float. *)
Definition truthy (x : R) : bool := if Req_EM_T x 0 then false else true.

(** The three rules of [process_job], in the order they append to [recs]. *)
Definition derive_recommendations (mc : metrics_calc) : list text :=
  let kl := knee_angle_left_median mc in
  let kr := knee_angle_right_median mc in
  let knee_rule :=
    match kl, kr with
    | Some a, Some b => truthy a && truthy b && (Rltb 170 a && Rltb 170 b)
    | _, _ => false
    end in
  let ed := elbow_drop_median mc in
  let elbow_rule := match ed with Some x => Rltb 0.10 x | None => false end in
  let sw := stance_width_ratio_median mc in
  let stance_rule := match sw with Some x => Rltb x 0.70 | None => false end in
  (if knee_rule then [TIP_BEND] else [])
  ++ (if elbow_rule then [TIP_ELBOW] else [])
  ++ (if stance_rule then [TIP_STANCE] else []).

(** The [result] dict written on success. *)
Record result_payload := mk_result {
  r_sport : text;
  r_summary : text;
  r_metrics : nat * Z * Z * R;
  r_drills : list text;
  r_overlay_url : text;
  r_analysis : option (metrics_calc * list text);
  r_focus : option (text * option (list tip))
}.

(** Exceptions reaching the handlers of [process_job]. *)
Inductive exn :=
| CalledProcessError (stderr : text)
| Exception (msg : text).  (* any other exception, with [str(e)] *)

(** The outcomes of the external calls made by [process_job]. *)
Record env := mk_env {
  download_to_filename : option exn;   (* bucket.blob(object_path).download_to_filename *)
  decode : exn + video;                (* cv2 / mediapipe inside draw_pose_overlay *)
  run_ffmpeg : option exn;             (* subprocess.run([...], check=True) *)
  upload_from_filename : option exn;   (* bucket.blob(result_gcs).upload_from_filename *)
  generate_signed_url : exn + text     (* gcs_signed_get(result_gcs, minutes=240) *)
}.

(** The body of the [try] block, in an exception monad. *)
Definition M (A : Type) : Type := (exn + A)%type.
Definition bindM {A B} (m : M A) (k : A -> M B) : M B :=
  match m with inl e => inl e | inr a => k a end.
Definition raise_opt (o : option exn) : M unit :=
  match o with Some e => inl e | None => inr tt end.
Local Notation "x <- m ;; k" := (bindM m (fun x => k))
  (at level 100, m at next level, right associativity).

Definition process_job_body (e : env) (job_id object_path : text)
    (provided_sport provided_focus : option text) : M result_payload :=
  _ <- raise_opt (download_to_filename e) ;;
  v <- decode e ;;
  let meta := draw_pose_overlay v in
  _ <- raise_opt (run_ffmpeg e) ;;
  _ <- raise_opt (upload_from_filename e) ;;
  let sport := py_or provided_sport (simple_auto_sport (m_width meta) (m_height meta) (m_fps meta)) in
  let generic := coaching_tips sport in
  let focus := match strip (py_or provided_focus []) with [] => None | f => Some f end in
  let focus_tips :=
    match sport, focus with
    | _ :: _, Some f => Some (get_focus_recommendations (Some sport) (Some f) 3)
    | _, _ => None
    end in
  let recs := derive_recommendations (m_metrics_calc meta) in
  let mc := m_metrics_calc meta in
  url <- generate_signed_url e ;;
  inr (mk_result sport (g_summary generic)
         (m_frames meta, m_width meta, m_height meta, m_fps meta)
         (g_drills generic) url
         (* [if mc:] holds: [mc] is a dict with four keys *)
         (Some (mc, match recs with [] => [] | _ => take 3 recs end))
         (match focus with Some f => Some (f, focus_tips) | None => None end)).

(* ------------------------------------------------------------------ *)
(** *** The job store [JOBS] *)

Inductive status := PROCESSING | DONE | ERROR.

(** The value written to [JOBS[job_id]["result"]]: the success dict, or
    [{"error": ..., "stderr"?: ...}]. *)
Inductive result_value :=
| RDone (r : result_payload)
| RError (error : text) (stderr : option text).

Record job := mk_job {
  j_status : status;
  j_object_path : text;
  j_result : option result_value
}.

(** One assignment [JOBS[job_id][key] = value]. *)
Inductive write :=
| WStatus (s : status)
| WResult (r : result_value).

(** The assignments [process_job] performs, in order. *)
Definition process_job (e : env) (job_id object_path : text)
    (provided_sport provided_focus : option text) : list write :=
  match process_job_body e job_id object_path provided_sport provided_focus with
  | inr result => [WStatus DONE; WResult (RDone result)]
  | inl (CalledProcessError err) =>
      [WStatus ERROR;
       WResult (RError (cps "ffmpeg transcode failed")
                       (Some (match err with [] => [] | _ => err end)))]
  | inl (Exception msg) => [WStatus ERROR; WResult (RError msg None)]
  end.

Definition apply_write (w : write) (j : job) : job :=
  match w with
  | WStatus s => mk_job s (j_object_path j) (j_result j)
  | WResult r => mk_job (j_status j) (j_object_path j) (Some r)
  end.

(** The server: [JOBS] and the background tasks still to run, each with the
    assignments it has not performed yet. *)
Record server := mk_server {
  JOBS : gmap text job;
  tasks : list (text * list write)
}.

Definition run_write (job_id : text) (w : write) (m : gmap text job)
  : gmap text job :=
  match m !! job_id with
  | Some j => <[job_id := apply_write w j]> m
  | None => m  (* KeyError: unreachable, every task's job is in JOBS *)
  end.

(** [GET /status/{job_id}]: [None] is the 404 answer. *)
Definition status_query (s : server) (job_id : text)
  : option (status * option result_value) :=
  match JOBS s !! job_id with
  | Some j => Some (j_status j, j_result j)
  | None => None
  end.

(** Steps of the server.  [POST /jobs] with a non-empty [objectPath] inserts
    the job under a fresh [uuid4] and schedules [process_job]; the outcome
    of its external calls is [e].  A background task performs its
    assignments one at a time, interleaved with everything else (FastAPI
    runs the task and the status handlers on worker threads). *)
Inductive step : server -> server -> Prop :=
| step_create_job s job_id object_path provided_sport provided_focus e :
    JOBS s !! job_id = None ->
    object_path <> [] ->
    step s (mk_server
              (<[job_id := mk_job PROCESSING object_path None]> (JOBS s))
              (tasks s ++ [(job_id, process_job e job_id object_path provided_sport provided_focus)]))
| step_task s t1 t2 job_id w ws :
    tasks s = t1 ++ (job_id, w :: ws) :: t2 ->
    step s (mk_server (run_write job_id w (JOBS s)) (t1 ++ (job_id, ws) :: t2)).

Definition init : server := mk_server ∅ [].

Definition reachable (s : server) : Prop := rtc step init s.

End Pipeline.

(* ------------------------------------------------------------------ *)
(** ** pose_overlay.py: [_estimate_simple_metrics]

    [math.isnan(ang)] never holds: [_angle] clamps the cosine into
    [[-1, 1]] and its norms fall back to [1e-6], so every frame contributes
    an angle. *)

Module PoseOverlayMetrics.
Local Open Scope R_scope.

(** Python's [round(x, 1)]: [10 x] rounded to the nearest integer, ties to
    even, divided by 10. *)
Definition py_round1 (x : R) : R :=
  let y := x * 10 in
  let f := Int_part y in
  let frac := y - IZR f in
  let n :=
    if Rlt_dec frac (1/2) then f
    else if Rlt_dec (1/2) frac then (f + 1)%Z
    else if Z.even f then f else (f + 1)%Z in
  IZR n / 10.

Record simple_metrics := mk_simple_metrics {
  avg_knee_angle_left : option R;
  arm_extension_frames : nat
}.

Definition _estimate_simple_metrics (pose_landmarks_list : list landmarks) : simple_metrics :=
  match pose_landmarks_list with
  | [] => mk_simple_metrics None 0
  | _ =>
    let angles :=
      map (fun lm => PoseOverlay._angle (LEFT_HIP lm) (LEFT_KNEE lm) (LEFT_ANKLE lm))
        pose_landmarks_list in
    let arm_ext_frames :=
      length (List.filter (fun lm => Rltb 0.15 (Rabs (fst (LEFT_ELBOW lm) - fst (LEFT_SHOULDER lm))))
                pose_landmarks_list) in
    (* [sum(angles) / len(angles) if angles else None] *)
    let avg_knee :=
      match angles with
      | [] => None
      | _ => Some (fold_left Rplus angles 0 / INR (length angles))
      end in
    mk_simple_metrics
      (match avg_knee with
       | Some a => if Pipeline.truthy a then Some (py_round1 a) else None
       | None => None
       end)
      arm_ext_frames
  end.

End PoseOverlayMetrics.

(* ================================================================== *)
(** * Properties *)

(* ------------------------------------------------------------------ *)
(** ** Shape heuristic *)

Module ShapeFacts.

Lemma sport_labels_distinct :
  cps "running" <> cps "soccer" /\ cps "running" <> cps "tennis"
  /\ cps "soccer" <> cps "tennis".
Proof. vm_compute. repeat split; discriminate. Qed.

(** C6: for positive width, height and fps the shape heuristic answers
    "running" exactly when width/height < 0.8, "soccer" exactly when
    width/height > 1.6 and "tennis" otherwise; 400x800, 1600x800 and 800x800
    give running, soccer and tennis. *)
Theorem simple_auto_sport_thresholds (width height : Z) (fps : R)
    (Hw : (0 < width)%Z) (Hh : (0 < height)%Z) (Hf : (0 < fps)%R) :
  let ar := (inject_Z width / inject_Z height)%Q in
  (simple_auto_sport width height fps = cps "running" <-> (ar < 4 # 5)%Q) /\
  (simple_auto_sport width height fps = cps "soccer" <-> (8 # 5 < ar)%Q) /\
  (simple_auto_sport width height fps = cps "tennis" <-> (4 # 5 <= ar <= 8 # 5)%Q) /\
  simple_auto_sport 400 800 fps = cps "running" /\
  simple_auto_sport 1600 800 fps = cps "soccer" /\
  simple_auto_sport 800 800 fps = cps "tennis".
Proof.
  intros ar.
  destruct sport_labels_distinct as (D1 & D2 & D3).
  assert (Hz : Z.eqb height 0 = false) by (apply Z.eqb_neq; lia).
  unfold simple_auto_sport. rewrite Hz. fold ar.
  refine (conj _ (conj _ (conj _ (conj eq_refl (conj eq_refl eq_refl))))).
  - destruct (Qlt_le_dec ar (4 # 5)) as [H1|H1];
      [|destruct (Qlt_le_dec (8 # 5) ar)]; split; intros H; try tauto; try congruence;
      exfalso; apply (Qlt_not_le _ _ H); assumption.
  - destruct (Qlt_le_dec ar (4 # 5)) as [H1|H1];
      [|destruct (Qlt_le_dec (8 # 5) ar) as [H2|H2]]; split; intros H; try tauto; try congruence.
    + exfalso. apply (Qlt_not_le _ _ H1). apply Qlt_le_weak.
      apply Qlt_trans with (8 # 5); [reflexivity | assumption].
    + exfalso. apply (Qlt_not_le _ _ H); assumption.
  - destruct (Qlt_le_dec ar (4 # 5)) as [H1|H1];
      [|destruct (Qlt_le_dec (8 # 5) ar) as [H2|H2]]; split; intros H; try tauto; try congruence.
    + exfalso. destruct H as [H _]. apply (Qlt_not_le _ _ H1); assumption.
    + exfalso. destruct H as [_ H]. apply (Qlt_not_le _ _ H2); assumption.
Qed.

Lemma simple_auto_sport_thresholds_witness :
  ((0 < 400)%Z /\ (0 < 800)%Z /\ (0 < 30)%R) /\
  simple_auto_sport 400 800 30 = cps "running".
Proof.
  split; [split; [lia | split; [lia | lra]] |].
  destruct (simple_auto_sport_thresholds 400 800 30 ltac:(lia) ltac:(lia) ltac:(lra))
    as (_ & _ & _ & H & _).
  exact H.
Defined.

End ShapeFacts.

(* ------------------------------------------------------------------ *)
(** ** Median *)

Module MedianFacts.

Section SortFacts.
Context {A : Type} (leb : A -> A -> bool) (le : A -> A -> Prop).
Hypothesis leb_true : forall x y, leb x y = true -> le x y.
Hypothesis leb_false : forall x y, leb x y = false -> le y x.

Lemma insert_sorted_perm (x : A) (l : list A) :
  Permutation (insert_sorted leb x l) (x :: l).
Proof.
  induction l as [|y l IH]; simpl; [reflexivity|].
  destruct (leb x y); [reflexivity|].
  rewrite IH. apply perm_swap.
Qed.

Lemma sort_perm (l : list A) : Permutation (sort leb l) l.
Proof.
  induction l as [|x l IH]; simpl; [reflexivity|].
  rewrite insert_sorted_perm, IH. reflexivity.
Qed.

Lemma insert_sorted_hd (z x : A) (l : list A) :
  HdRel le z l -> le z x -> HdRel le z (insert_sorted leb x l).
Proof.
  destruct l as [|y l]; simpl; intros Hz Hx; [constructor; exact Hx|].
  destruct (leb x y); constructor; [exact Hx|]. inversion Hz; assumption.
Qed.

Lemma insert_sorted_sorted (x : A) (l : list A) :
  Sorted le l -> Sorted le (insert_sorted leb x l).
Proof.
  induction l as [|y l IH]; simpl; intros Hs; [repeat constructor|].
  destruct (leb x y) eqn:E.
  - constructor; [exact Hs | constructor; apply leb_true; exact E].
  - inversion Hs as [|? ? Hl Hhd]; subst.
    constructor; [apply IH; exact Hl|].
    apply insert_sorted_hd; [exact Hhd | apply leb_false; exact E].
Qed.

Lemma sort_sorted (l : list A) : Sorted le (sort leb l).
Proof.
  induction l as [|x l IH]; simpl; [constructor|].
  apply insert_sorted_sorted; exact IH.
Qed.

End SortFacts.

Lemma Qle_bool_false (x y : Q) : Qle_bool x y = false -> (y <= x)%Q.
Proof.
  intros H. apply Qlt_le_weak. apply Qnot_le_lt. intros Hle.
  apply Qle_bool_iff in Hle. congruence.
Qed.

Lemma nth_error_in_range {A} (l : list A) (i : nat) :
  (i < length l)%nat -> exists x, nth_error l i = Some x.
Proof.
  intros H. destruct (nth_error l i) eqn:E; [eauto|].
  apply nth_error_None in E. lia.
Qed.

(** C4: [_median] drops [None] entries; it is [None] when nothing is left,
    the value itself for one value, the middle element of the sorted values
    for an odd count and the mean of the two middle sorted values for an
    even count; the median of [1,2,3,4] is 2.5. *)
Theorem median_spec (xs : list (option Q)) :
  let p := present xs in
  let s := sort Qle_bool p in
  let n := length p in
  Sorted Qle s /\ Permutation s p /\
  median_Q xs = median_Q (map Some p) /\
  (p = [] -> median_Q xs = None) /\
  (forall x, p = [x] -> median_Q xs = Some x) /\
  (Nat.odd n = true ->
     exists x, nth_error s (n / 2) = Some x /\ median_Q xs = Some x) /\
  (n <> 0%nat -> Nat.even n = true ->
     exists a b, nth_error s (n / 2 - 1) = Some a /\ nth_error s (n / 2) = Some b
                 /\ median_Q xs = Some ((a + b) / 2)%Q) /\
  median_Q [Some 1%Q; Some 2%Q; Some 3%Q; Some 4%Q] = Some (5 # 2)%Q.
Proof.
  intros p s n.
  assert (Hs : Sorted Qle s)
    by (apply (sort_sorted Qle_bool Qle); [apply Qle_bool_imp_le | apply Qle_bool_false]).
  assert (Hp : Permutation s p) by apply sort_perm.
  assert (Hlen : length s = n) by (apply Permutation_length; exact Hp).
  assert (Hpres : present (map Some p) = p)
    by (clear; induction p as [|x p IH]; simpl; [reflexivity | rewrite IH; reflexivity]).
  refine (conj Hs (conj Hp (conj _ (conj _ (conj _ (conj _ (conj _ _))))))).
  - unfold median_Q, _median. rewrite Hpres. reflexivity.
  - unfold median_Q, _median. fold p. intros ->. reflexivity.
  - unfold median_Q, _median. fold p. intros x ->. reflexivity.
  - intros Hodd.
    assert (Hn : n <> 0%nat) by (intros H0; rewrite H0 in Hodd; discriminate).
    assert (Hlt : (n / 2 < n)%nat) by (apply Nat.div_lt; lia).
    destruct (nth_error_in_range s (n / 2)) as [x Hx]; [lia|].
    exists x. split; [exact Hx|].
    unfold median_Q, _median. fold p. fold s.
    assert (En : n = length p) by reflexivity.
    clearbody p s n. destruct p as [|y p']; [simpl in En; congruence|].
    rewrite Hlen, Hodd. exact Hx.
  - intros Hn Heven.
    assert (Hlt : (n / 2 < n)%nat) by (apply Nat.div_lt; lia).
    destruct (nth_error_in_range s (n / 2)) as [b Hb]; [lia|].
    destruct (nth_error_in_range s (n / 2 - 1)) as [a Ha]; [lia|].
    exists a, b. split; [exact Ha|]. split; [exact Hb|].
    assert (Hodd : Nat.odd n = false)
      by (unfold Nat.odd; rewrite Heven; reflexivity).
    unfold median_Q, _median. fold p. fold s.
    assert (En : n = length p) by reflexivity.
    clearbody p s n. destruct p as [|y p']; [simpl in En; congruence|].
    rewrite Hlen, Hodd, Ha, Hb. reflexivity.
  - vm_compute. reflexivity.
Qed.

End MedianFacts.

(* ------------------------------------------------------------------ *)
(** ** Focus-tip lookup *)

Module FocusFacts.
Import PyStr FocusRules.
Local Open Scope Z_scope.

Lemma enumerate_from_texts (i : Z) (l : list text) :
  map tip_text (enumerate_from i l) = l.
Proof.
  revert i. induction l as [|t l IH]; intros i; simpl; [reflexivity|].
  rewrite IH. reflexivity.
Qed.

Lemma enumerate_from_ids (i : Z) (l : list text) :
  map tip_id (enumerate_from i l) = map (fun k => i + Z.of_nat k) (seq 0 (length l)).
Proof.
  revert i. induction l as [|t l IH]; intros i; simpl; [reflexivity|].
  rewrite IH, <- seq_shift, map_map. f_equal; [lia|].
  apply map_ext. intros k. lia.
Qed.

Lemma enumerate_from_length (i : Z) (l : list text) :
  length (enumerate_from i l) = length l.
Proof.
  revert i. induction l as [|t l IH]; intros i; simpl; [reflexivity|].
  rewrite IH. reflexivity.
Qed.

(** C9: an unknown sport gives the one generic tip; a known sport with an
    unknown focus gives the one "no tips for this focus" entry; a known
    pair gives the catalog's tips in catalog order, numbered from 0, at
    most [limit] of them when [limit >= 0], and for a negative [limit]
    (Python slicing) all but the last [-limit] of them. *)
Theorem focus_lookup_cases (sport focus : option text) (limit : Z) :
  let s := strip (lower (py_or sport [])) in
  let f := strip (lower (py_or focus [])) in
  let res := get_focus_recommendations sport focus limit in
  (dict_get s RECOMMENDATIONS_DB = None -> res = [mk_tip 0 general_tip]) /\
  (forall by_focus, dict_get s RECOMMENDATIONS_DB = Some by_focus ->
     dict_get f by_focus = None -> res = [mk_tip 0 (no_tips_text f)]) /\
  (forall by_focus all_tips, dict_get s RECOMMENDATIONS_DB = Some by_focus ->
     dict_get f by_focus = Some all_tips ->
     map tip_id res = map Z.of_nat (seq 0 (length res)) /\
     (0 <= limit -> (length res <= Z.to_nat limit)%nat /\
                    map tip_text res = firstn (Z.to_nat limit) all_tips) /\
     (limit < 0 -> map tip_text res
                   = firstn (Z.to_nat (Z.of_nat (length all_tips) + limit)) all_tips)).
Proof.
  intros s f res. unfold res, get_focus_recommendations. fold s f.
  split; [intros -> ; reflexivity|]. split.
  - intros bf Hs Hf. rewrite Hs, Hf. reflexivity.
  - intros bf tips Hs Hf. rewrite Hs, Hf.
    rewrite enumerate_from_ids, enumerate_from_length, enumerate_from_texts.
    split; [apply map_ext; intros k; lia|].
    unfold take. split.
    + intros Hl. assert (E : (0 <=? limit) = true) by (apply Z.leb_le; lia).
      rewrite E. split; [apply firstn_le_length|]; reflexivity.
    + intros Hl. assert (E : (0 <=? limit) = false) by (apply Z.leb_gt; lia).
      rewrite E. reflexivity.
Qed.

(** The tips of the known pair ("tennis", "swing") with [limit = -1]. *)
Lemma focus_lookup_negative_limit :
  let res := get_focus_recommendations (Some (cps "tennis")) (Some (cps "swing")) (-1) in
  length res = 2%nat /\ ~ (Z.of_nat (length res) <= -1).
Proof.
  intros res.
  assert (H : length res = 2%nat) by (vm_compute; reflexivity).
  rewrite H. split; [reflexivity | lia].
Qed.

(** An ASCII case change: every code point is kept or has its ASCII
    letter case swapped. *)
Definition ascii_swapcase_cp (c : Z) : Z :=
  if (65 <=? c) && (c <=? 90) then c + 32
  else if (97 <=? c) && (c <=? 122) then c - 32
  else c.

Fixpoint ascii_case_variant (s t : text) : bool :=
  match s, t with
  | [], [] => true
  | a :: s', b :: t' =>
      (bool_decide (b = a) || bool_decide (b = ascii_swapcase_cp a))
      && ascii_case_variant s' t'
  | _, _ => false
  end.

Definition all_space (ws : text) : bool := forallb is_space ws.

Lemma lower_cp_swapcase (c : Z) : lower_cp (ascii_swapcase_cp c) = lower_cp c.
Proof.
  unfold ascii_swapcase_cp, lower_cp.
  destruct ((65 <=? c) && (c <=? 90)) eqn:E1.
  - apply andb_true_iff in E1 as [E1 E2]. apply Z.leb_le in E1, E2.
    replace ((65 <=? c + 32) && (c + 32 <=? 90)) with false
      by (symmetry; apply andb_false_iff; right; apply Z.leb_gt; lia).
    replace ((192 <=? c + 32) && (c + 32 <=? 222) && negb (c + 32 =? 215)) with false
      by (symmetry; apply andb_false_iff; left; apply andb_false_iff; left; apply Z.leb_gt; lia).
    reflexivity.
  - destruct ((97 <=? c) && (c <=? 122)) eqn:E3; [|rewrite E1; reflexivity].
    apply andb_true_iff in E3 as [E3 E4]. apply Z.leb_le in E3, E4.
    replace ((65 <=? c - 32) && (c - 32 <=? 90)) with true
      by (symmetry; apply andb_true_iff; split; apply Z.leb_le; lia).
    replace ((192 <=? c) && (c <=? 222) && negb (c =? 215)) with false
      by (symmetry; apply andb_false_iff; left; apply andb_false_iff; left; apply Z.leb_gt; lia).
    f_equal. lia.
Qed.

Lemma lower_case_variant (s t : text) :
  ascii_case_variant s t = true -> lower t = lower s.
Proof.
  revert t. induction s as [|a s IH]; intros [|b t]; simpl; try discriminate; [reflexivity|].
  intros H. apply andb_true_iff in H as [H1 H2].
  rewrite (IH t H2). f_equal.
  apply orb_true_iff in H1 as [H1|H1]; apply bool_decide_eq_true in H1; subst;
    [reflexivity | apply lower_cp_swapcase].
Qed.

Lemma lower_cp_space (c : Z) : is_space c = true -> lower_cp c = c.
Proof.
  unfold is_space, lower_cp. intros H.
  destruct ((65 <=? c) && (c <=? 90)) eqn:E1.
  { exfalso. apply andb_true_iff in E1 as [E1 E2]. apply Z.leb_le in E1, E2.
    repeat (apply orb_true_iff in H as [H|H]);
      repeat (apply andb_true_iff in H as [H ?]);
      repeat match goal with
             | H : (_ <=? _) = true |- _ => apply Z.leb_le in H
             | H : (_ =? _) = true |- _ => apply Z.eqb_eq in H
             end; lia. }
  destruct ((192 <=? c) && (c <=? 222) && negb (c =? 215)) eqn:E2; [|reflexivity].
  exfalso. apply andb_true_iff in E2 as [E2 _]. apply andb_true_iff in E2 as [E2 E3].
  apply Z.leb_le in E2, E3.
  repeat (apply orb_true_iff in H as [H|H]);
    repeat (apply andb_true_iff in H as [H ?]);
    repeat match goal with
           | H : (_ <=? _) = true |- _ => apply Z.leb_le in H
           | H : (_ =? _) = true |- _ => apply Z.eqb_eq in H
           end; lia.
Qed.

Lemma lower_all_space (ws : text) : all_space ws = true -> lower ws = ws.
Proof.
  induction ws as [|c ws IH]; simpl; [reflexivity|].
  intros H. apply andb_true_iff in H as [H1 H2].
  rewrite lower_cp_space, IH by assumption. reflexivity.
Qed.

Lemma lstrip_spaces_app (ws x : text) :
  all_space ws = true -> lstrip (ws ++ x) = lstrip x.
Proof.
  induction ws as [|c ws IH]; simpl; [reflexivity|].
  intros H. apply andb_true_iff in H as [H1 H2]. rewrite H1. apply IH, H2.
Qed.

Lemma lstrip_app_spaces (x ws : text) :
  all_space ws = true ->
  lstrip (x ++ ws) = match lstrip x with [] => [] | y => y ++ ws end.
Proof.
  intros Hws. induction x as [|c x IH]; simpl.
  - rewrite <- (app_nil_r ws) at 1. rewrite lstrip_spaces_app by exact Hws. reflexivity.
  - destruct (is_space c); [exact IH | reflexivity].
Qed.

Lemma all_space_rev (ws : text) : all_space (rev ws) = all_space ws.
Proof.
  unfold all_space. induction ws as [|c ws IH]; simpl; [reflexivity|].
  rewrite forallb_app, IH. simpl. rewrite andb_true_r. apply andb_comm.
Qed.

Lemma strip_pad (ws1 x ws2 : text) :
  all_space ws1 = true -> all_space ws2 = true -> strip (ws1 ++ x ++ ws2) = strip x.
Proof.
  intros H1 H2. unfold strip. rewrite lstrip_spaces_app by exact H1.
  rewrite lstrip_app_spaces by exact H2.
  destruct (lstrip x) as [|c y] eqn:E; [reflexivity|].
  rewrite rev_app_distr, lstrip_spaces_app by (rewrite all_space_rev; exact H2).
  reflexivity.
Qed.
Lemma py_or_some_nil (t : text) : py_or (Some t) [] = t.
Proof. destruct t; reflexivity. Qed.

Lemma normalise_pad (ws1 x ws2 x' : text) :
  ascii_case_variant x x' = true -> all_space ws1 = true -> all_space ws2 = true ->
  strip (lower (py_or (Some (ws1 ++ x' ++ ws2)) [])) = strip (lower (py_or (Some x) [])).
Proof.
  intros Hx H1 H2. rewrite !py_or_some_nil.
  unfold lower at 1. rewrite !map_app. fold (lower ws1) (lower x') (lower ws2).
  rewrite (lower_all_space ws1), (lower_all_space ws2) by assumption.
  rewrite strip_pad by assumption. rewrite (lower_case_variant x x' Hx). reflexivity.
Qed.

(** C10: the lookup lower-cases and strips both arguments, so adding
    leading or trailing whitespace or changing the case of ASCII letters in
    either argument does not change the result, and [None] is looked up as
    the empty string. *)
Theorem focus_lookup_normalised (s s' f f' ws1 ws2 ws3 ws4 : text) (limit : Z)
    (Hs : ascii_case_variant s s' = true) (Hf : ascii_case_variant f f' = true)
    (H1 : all_space ws1 = true) (H2 : all_space ws2 = true)
    (H3 : all_space ws3 = true) (H4 : all_space ws4 = true) :
  get_focus_recommendations (Some (ws1 ++ s' ++ ws2)) (Some (ws3 ++ f' ++ ws4)) limit
  = get_focus_recommendations (Some s) (Some f) limit /\
  (forall x, get_focus_recommendations None x limit
             = get_focus_recommendations (Some []) x limit) /\
  (forall x, get_focus_recommendations x None limit
             = get_focus_recommendations x (Some []) limit).
Proof.
  split; [|split; intros x; reflexivity].
  unfold get_focus_recommendations.
  rewrite (normalise_pad ws1 s ws2 s'), (normalise_pad ws3 f ws4 f') by assumption.
  reflexivity.
Qed.

Lemma focus_lookup_normalised_witness :
  get_focus_recommendations (Some ([32] ++ cps "TeNNis" ++ [9; 10]))
                            (Some ([] ++ cps "SWING" ++ [32])) 3
  = get_focus_recommendations (Some (cps "tennis")) (Some (cps "swing")) 3.
Proof.
  exact (proj1 (focus_lookup_normalised (cps "tennis") (cps "TeNNis") (cps "swing") (cps "SWING")
                  [32] [9; 10] [] [32] 3 ltac:(reflexivity) ltac:(reflexivity)
                  ltac:(reflexivity) ltac:(reflexivity) ltac:(reflexivity) ltac:(reflexivity))).
Defined.

(** The code point 305 is U+0131 (dotless i).  In Python
    ["tenn\u0131s".upper() == "TENNIS"], yet the lower-cased, stripped
    forms differ (["\u0131".lower()] is ["\u0131"]): the upper-case spelling
    finds the tennis tips and the other one falls back to the generic tip. *)
Lemma focus_lookup_unicode_case :
  get_focus_recommendations (Some (cps "tenn" ++ [305] ++ cps "s")) (Some (cps "swing")) 3
  = [mk_tip 0 general_tip] /\
  get_focus_recommendations (Some (cps "TENNIS")) (Some (cps "swing")) 3
  <> [mk_tip 0 general_tip].
Proof. split; vm_compute; [reflexivity | discriminate]. Qed.

End FocusFacts.

(* ------------------------------------------------------------------ *)
(** ** Knee-angle geometry *)

Module GeometryFacts.
Import Geometry.
Local Open Scope R_scope.

Lemma dist_zero_iff (a b : point) : _dist a b = 0 <-> a = b.
Proof.
  destruct a as [ax ay], b as [bx by']. unfold _dist; simpl. split.
  - intros H. pose proof (pow2_ge_0 (ax - bx)). pose proof (pow2_ge_0 (ay - by')).
    apply sqrt_eq_0 in H; [|lra].
    assert (Hx : (ax - bx) ^ 2 = 0) by lra. assert (Hy : (ay - by') ^ 2 = 0) by lra.
    rewrite <- Rsqr_pow2 in Hx, Hy. apply Rsqr_eq_0 in Hx, Hy.
    replace ax with bx by lra. replace ay with by' by lra. reflexivity.
  - intros [= -> ->]. rewrite <- sqrt_0. f_equal. ring.
Qed.

Lemma dist_nonneg (a b : point) : 0 <= _dist a b.
Proof. apply sqrt_pos. Qed.

Lemma dist_val (a b : point) (d : R) :
  0 <= d -> (fst a - fst b) ^ 2 + (snd a - snd b) ^ 2 = d ^ 2 -> _dist a b = d.
Proof. intros Hd H. unfold _dist. rewrite H. apply sqrt_pow2, Hd. Qed.

Lemma degrees_acos_bound (x : R) : 0 <= degrees (acos x) <= 180.
Proof.
  pose proof (acos_bound x) as [H1 H2]. pose proof PI_RGT_0 as HP.
  unfold degrees. split.
  - apply Rmult_le_pos; [nra | left; apply Rinv_0_lt_compat; exact HP].
  - apply (Rmult_le_reg_r PI); [exact HP|].
    unfold Rdiv. rewrite Rmult_assoc, Rinv_l by lra. nra.
Qed.

(** Two coincident end points [a = c] (hip and ankle on the same spot): the
    angle at [b] is 0 degrees, not [None]. *)
Lemma angle_coincident_ends :
  _angle (0, 0) (1, 0) (0, 0) = Some 0.
Proof.
  assert (D1 : _dist (0, 0) (1, 0) = 1) by (apply dist_val; simpl; lra).
  assert (D0 : _dist (0, 0) (0, 0) = 0) by (apply dist_zero_iff; reflexivity).
  unfold _angle. cbv zeta. rewrite D1, D0.
  destruct (Req_EM_T 1 0) as [E|_]; [lra|].
  replace ((1 ^ 2 + 1 ^ 2 - 0 ^ 2) / (2 * 1 * 1)) with 1 by field.
  rewrite Rmin_left, Rmax_right by lra. rewrite acos_1.
  unfold degrees. f_equal. field. apply PI_neq0.
Qed.

(** C8: [_angle a b c] is [None] exactly when [a = b] or [c = b] (a zero
    side length at the vertex [b]); otherwise it is the law-of-cosines angle
    at [b] in degrees, computed from the cosine clamped to [-1, 1], and lies
    in [0, 180]; for hip (0,0), knee (0,1), ankle (1,1) it is 90. *)
Theorem angle_spec (a b c : point) :
  (_angle a b c = None <-> a = b \/ c = b) /\
  (a <> b -> c <> b ->
     exists theta, _angle a b c = Some theta /\
       theta = degrees (acos (Rmax (-1) (Rmin 1
                 ((_dist a b ^ 2 + _dist c b ^ 2 - _dist a c ^ 2)
                  / (2 * _dist a b * _dist c b))))) /\
       0 <= theta <= 180) /\
  _angle (0, 0) (0, 1) (1, 1) = Some 90.
Proof.
  split; [|split].
  - unfold _angle. cbv zeta. split.
    + destruct (Req_EM_T (_dist a b) 0) as [E|E];
        [intros _; left; apply dist_zero_iff; exact E|].
      destruct (Req_EM_T (_dist c b) 0) as [E'|E'];
        [intros _; right; apply dist_zero_iff; exact E'|].
      discriminate.
    + intros [H|H]; apply dist_zero_iff in H;
        destruct (Req_EM_T (_dist a b) 0); try reflexivity; try contradiction.
      destruct (Req_EM_T (_dist c b) 0); [reflexivity | contradiction].
  - intros Hab Hcb. unfold _angle. cbv zeta.
    destruct (Req_EM_T (_dist a b) 0) as [E|_]; [apply dist_zero_iff in E; contradiction|].
    destruct (Req_EM_T (_dist c b) 0) as [E|_]; [apply dist_zero_iff in E; contradiction|].
    eexists. split; [reflexivity|]. split; [reflexivity|]. apply degrees_acos_bound.
  - assert (D1 : _dist (0, 0) (0, 1) = 1) by (apply dist_val; simpl; lra).
    assert (D2 : _dist (1, 1) (0, 1) = 1) by (apply dist_val; simpl; lra).
    assert (D3 : _dist (0, 0) (1, 1) = sqrt 2).
    { apply dist_val; [apply sqrt_pos|]. rewrite pow2_sqrt by lra. simpl. lra. }
    unfold _angle. cbv zeta. rewrite D1, D2, D3.
    destruct (Req_EM_T 1 0) as [E|_]; [lra|].
    rewrite pow2_sqrt by lra.
    replace ((1 ^ 2 + 1 ^ 2 - 2) / (2 * 1 * 1)) with 0 by field.
    rewrite Rmin_right, Rmax_right by lra. rewrite acos_0.
    unfold degrees. f_equal. field. apply PI_neq0.
Qed.

End GeometryFacts.

(* ------------------------------------------------------------------ *)
(** ** Recommendation rules *)

Module RecommendationFacts.
Import Pipeline.
Local Open Scope R_scope.

Lemma Rltb_iff (x y : R) : Rltb x y = true <-> x < y.
Proof. unfold Rltb. destruct (Rlt_dec x y); split; intros; (lra || discriminate || reflexivity). Qed.

Lemma truthy_pos (x : R) : 0 < x -> truthy x = true.
Proof. unfold truthy. destruct (Req_EM_T x 0); [lra | reflexivity]. Qed.

Lemma tips_distinct :
  TIP_BEND <> TIP_ELBOW /\ TIP_BEND <> TIP_STANCE /\ TIP_ELBOW <> TIP_STANCE.
Proof. vm_compute. repeat split; discriminate. Qed.

Definition knee_rule_spec (mc : metrics_calc) : Prop :=
  exists kl kr, knee_angle_left_median mc = Some kl /\
                knee_angle_right_median mc = Some kr /\ 170 < kl /\ 170 < kr.
Definition elbow_rule_spec (mc : metrics_calc) : Prop :=
  exists ed, elbow_drop_median mc = Some ed /\ 0.10 < ed.
Definition stance_rule_spec (mc : metrics_calc) : Prop :=
  exists sw, stance_width_ratio_median mc = Some sw /\ sw < 0.70.

Lemma in_rules (t : text) (b1 b2 b3 : bool) :
  In t ((if b1 then [TIP_BEND] else []) ++ (if b2 then [TIP_ELBOW] else [])
        ++ (if b3 then [TIP_STANCE] else []))
  <-> (b1 = true /\ t = TIP_BEND) \/ (b2 = true /\ t = TIP_ELBOW) \/ (b3 = true /\ t = TIP_STANCE).
Proof.
  rewrite !in_app_iff.
  destruct b1, b2, b3; simpl; intuition congruence.
Qed.

Definition ex_straight_legs : metrics_calc := mk_metrics_calc (Some 175) (Some 178) (Some 0.05) (Some 0.9).
Definition ex_dropped_elbow : metrics_calc := mk_metrics_calc (Some 150) (Some 150) (Some 0.15) (Some 0.5).

(** C3: the derived recommendations hold the bend-knees tip exactly when
    both knee medians are present and above 170, the elbow tip exactly when
    the elbow-drop median is present and above 0.10, the stance tip exactly
    when the stance median is present and below 0.70; they appear in that
    order, at most 3 of them; the two examples of the spec. *)
Theorem recommendations_spec (mc : metrics_calc) :
  let recs := derive_recommendations mc in
  (In TIP_BEND recs <-> knee_rule_spec mc) /\
  (In TIP_ELBOW recs <-> elbow_rule_spec mc) /\
  (In TIP_STANCE recs <-> stance_rule_spec mc) /\
  sublist recs [TIP_BEND; TIP_ELBOW; TIP_STANCE] /\
  (length recs <= 3)%nat /\
  derive_recommendations ex_straight_legs = [TIP_BEND] /\
  derive_recommendations ex_dropped_elbow = [TIP_ELBOW; TIP_STANCE].
Proof.
  intros recs.
  destruct tips_distinct as (D1 & D2 & D3).
  set (b1 := match knee_angle_left_median mc, knee_angle_right_median mc with
             | Some a, Some b => truthy a && truthy b && (Rltb 170 a && Rltb 170 b)
             | _, _ => false end).
  set (b2 := match elbow_drop_median mc with Some x => Rltb 0.10 x | None => false end).
  set (b3 := match stance_width_ratio_median mc with Some x => Rltb x 0.70 | None => false end).
  assert (Hrecs : recs = (if b1 then [TIP_BEND] else []) ++ (if b2 then [TIP_ELBOW] else [])
                         ++ (if b3 then [TIP_STANCE] else [])) by reflexivity.
  assert (K : b1 = true <-> knee_rule_spec mc).
  { unfold b1, knee_rule_spec.
    destruct (knee_angle_left_median mc) as [a|], (knee_angle_right_median mc) as [b|];
      split; intros H; try discriminate; try (destruct H as (? & ? & ? & ? & ?); discriminate).
    - apply andb_true_iff in H as [_ H]. apply andb_true_iff in H as [H H'].
      apply Rltb_iff in H, H'. exists a, b. repeat split; assumption.
    - destruct H as (x & y & [= <-] & [= <-] & Hx & Hy).
      rewrite truthy_pos, truthy_pos by lra. simpl.
      apply andb_true_iff; split; apply Rltb_iff; assumption. }
  assert (E : b2 = true <-> elbow_rule_spec mc).
  { unfold b2, elbow_rule_spec. destruct (elbow_drop_median mc) as [x|];
      split; intros H; try discriminate; try (destruct H as (? & ? & ?); discriminate).
    - apply Rltb_iff in H. exists x. split; [reflexivity | exact H].
    - destruct H as (y & [= <-] & Hy). apply Rltb_iff, Hy. }
  assert (S : b3 = true <-> stance_rule_spec mc).
  { unfold b3, stance_rule_spec. destruct (stance_width_ratio_median mc) as [x|];
      split; intros H; try discriminate; try (destruct H as (? & ? & ?); discriminate).
    - apply Rltb_iff in H. exists x. split; [reflexivity | exact H].
    - destruct H as (y & [= <-] & Hy). apply Rltb_iff, Hy. }
  rewrite Hrecs, !in_rules.
  split; [rewrite <- K; intuition congruence|].
  split; [rewrite <- E; intuition congruence|].
  split; [rewrite <- S; intuition congruence|].
  split; [destruct b1, b2, b3; simpl;
          repeat first [apply sublist_nil | apply sublist_skip | apply sublist_cons]|].
  split; [destruct b1, b2, b3; simpl; lia|].
  split.
  - unfold derive_recommendations, ex_straight_legs, truthy, Rltb; simpl.
    destruct (Req_EM_T 175 0); [lra|]. destruct (Req_EM_T 178 0); [lra|].
    destruct (Rlt_dec 170 175); [|lra]. destruct (Rlt_dec 170 178); [|lra].
    destruct (Rlt_dec 0.10 0.05); [lra|]. destruct (Rlt_dec 0.9 0.70); [lra|].
    reflexivity.
  - unfold derive_recommendations, ex_dropped_elbow, truthy, Rltb; simpl.
    destruct (Req_EM_T 150 0); [lra|].
    destruct (Rlt_dec 170 150); [lra|].
    destruct (Rlt_dec 0.10 0.15); [|lra]. destruct (Rlt_dec 0.5 0.70); [|lra].
    reflexivity.
Qed.

End RecommendationFacts.

(* ------------------------------------------------------------------ *)
(** ** Motion heuristics *)

Module MotionFacts.
Import RecommendationFacts.
Local Open Scope R_scope.

Lemma labels_distinct : cps "tennis" <> cps "unknown".
Proof. vm_compute. discriminate. Qed.

Lemma po_is_hit_iff (lm : landmarks) :
  PoseOverlay.is_hit lm = true <->
  let LSH := LEFT_SHOULDER lm in
  let LEL := LEFT_ELBOW lm in
  let LWR := LEFT_WRIST lm in
  let ang := PoseOverlay._angle LSH LEL LWR in
  0.20 < sqrt ((fst LEL - fst LSH) ^ 2 + (snd LEL - snd LSH) ^ 2) /\
  0.15 < Rabs (fst LEL - fst LSH) /\ 60 < ang /\ ang < 120.
Proof. unfold PoseOverlay.is_hit. cbv zeta. rewrite !andb_true_iff, !Rltb_iff. tauto. Qed.

Lemma sd_is_hit_iff (lm : landmarks) :
  SportDetect.is_hit lm = true <->
  let shoulder := LEFT_SHOULDER lm in
  let elbow := LEFT_ELBOW lm in
  let wrist := LEFT_WRIST lm in
  let ang := SportDetect._angle shoulder elbow wrist in
  0.20 < SportDetect.dist elbow shoulder /\
  0.15 < Rabs (fst elbow - fst shoulder) /\ 60 < ang /\ ang < 120.
Proof. unfold SportDetect.is_hit. cbv zeta. rewrite !andb_true_iff, !Rltb_iff. tauto. Qed.

(** Frames of [detect_sport_from_gcs] that count as hits. *)
Definition sd_hits (l : list (option landmarks)) : nat :=
  length (List.filter (fun r => match r with Some lm => SportDetect.is_hit lm | None => false end) l).

Lemma scan_spec (video : list (option landmarks)) (frames score : nat) :
  (frames <= SportDetect.max_frames)%nat ->
  SportDetect.scan video frames score
  = (frames + length (firstn (SportDetect.max_frames - frames) video),
     score + sd_hits (firstn (SportDetect.max_frames - frames) video))%nat.
Proof.
  unfold SportDetect.max_frames, sd_hits.
  revert frames score. induction video as [|r rest IH]; intros frames score Hf.
  - rewrite firstn_nil. simpl. f_equal; lia.
  - cbn [SportDetect.scan]. unfold SportDetect.max_frames.
    destruct (Nat.ltb frames 120) eqn:E.
    + apply Nat.ltb_lt in E.
      replace (120 - frames)%nat with (S (120 - S frames)) by lia.
      rewrite IH by lia. cbn [firstn List.filter length].
      destruct r as [lm|]; [destruct (SportDetect.is_hit lm)|]; cbn [length]; f_equal; lia.
    + apply Nat.ltb_ge in E. replace (120 - frames)%nat with 0%nat by lia.
      simpl. f_equal; lia.
Qed.

(** A frame with a sideways, bent left arm: shoulder (0,0), elbow (1/2,0),
    wrist (1/2,1/2); the other points sit at the origin. *)
Definition L_hit : landmarks :=
  mk_landmarks (0, 0) (0, 0) (1/2, 0) (0, 0) (1/2, 1/2) (0, 0) (0, 0) (0, 0) (0, 0) (0, 0) (0, 0).

(** A frame with every point at the origin. *)
Definition L_miss : landmarks :=
  mk_landmarks (0, 0) (0, 0) (0, 0) (0, 0) (0, 0) (0, 0) (0, 0) (0, 0) (0, 0) (0, 0) (0, 0).

Lemma sqrt_val (x d : R) : 0 <= d -> x = d ^ 2 -> sqrt x = d.
Proof. intros Hd ->. apply sqrt_pow2, Hd. Qed.

Lemma degrees_acos_0 : Geometry.degrees (acos 0) = 90.
Proof. rewrite acos_0. unfold Geometry.degrees. field. apply PI_neq0. Qed.

Lemma po_angle_L_hit : PoseOverlay._angle (0, 0) (1/2, 0) (1/2, 1/2) = 90.
Proof.
  unfold PoseOverlay._angle. cbv zeta. cbn [fst snd].
  rewrite (sqrt_val ((0 - 1/2) ^ 2 + (0 - 0) ^ 2) (1/2)) by (lra || ring).
  rewrite (sqrt_val ((1/2 - 1/2) ^ 2 + (1/2 - 0) ^ 2) (1/2)) by (lra || ring).
  destruct (Req_EM_T (1/2) 0) as [E|_]; [lra|].
  replace (((0 - 1/2) * (1/2 - 1/2) + (0 - 0) * (1/2 - 0)) / (1/2 * (1/2))) with 0 by field.
  rewrite Rmin_left, Rmax_left by lra. apply degrees_acos_0.
Qed.

Lemma sd_angle_L_hit : SportDetect._angle (0, 0) (1/2, 0) (1/2, 1/2) = 90.
Proof.
  unfold SportDetect._angle, SportDetect.dist. cbv zeta. cbn [fst snd].
  rewrite (sqrt_val ((0 - 1/2) ^ 2 + (0 - 0) ^ 2) (1/2)) by (lra || ring).
  rewrite (sqrt_val ((1/2 - 1/2) ^ 2 + (0 - 1/2) ^ 2) (1/2)) by (lra || ring).
  replace ((0 - 1/2) ^ 2 + (0 - 1/2) ^ 2) with (1/2) by field.
  rewrite sqrt_sqrt by lra.
  rewrite (Rmax_left (2 * (1/2) * (1/2)) 1e-6) by nra.
  replace ((1/2 * (1/2) + 1/2 * (1/2) - 1/2) / (2 * (1/2) * (1/2))) with 0 by field.
  rewrite Rmin_left, Rmax_left by lra. apply degrees_acos_0.
Qed.

Lemma po_L_hit : PoseOverlay.is_hit L_hit = true.
Proof.
  apply po_is_hit_iff. cbv zeta. cbn [L_hit LEFT_SHOULDER LEFT_ELBOW LEFT_WRIST fst snd].
  rewrite po_angle_L_hit.
  rewrite (sqrt_val ((1/2 - 0) ^ 2 + (0 - 0) ^ 2) (1/2)) by (lra || ring).
  rewrite Rabs_pos_eq by lra. lra.
Qed.

Lemma sd_L_hit : SportDetect.is_hit L_hit = true.
Proof.
  apply sd_is_hit_iff. cbv zeta. cbn [L_hit LEFT_SHOULDER LEFT_ELBOW LEFT_WRIST fst snd].
  rewrite sd_angle_L_hit. unfold SportDetect.dist. cbn [fst snd].
  rewrite (sqrt_val ((1/2 - 0) ^ 2 + (0 - 0) ^ 2) (1/2)) by (lra || ring).
  rewrite Rabs_pos_eq by lra. lra.
Qed.

Lemma po_L_miss : PoseOverlay.is_hit L_miss = false.
Proof.
  destruct (PoseOverlay.is_hit L_miss) eqn:E; [|reflexivity].
  apply po_is_hit_iff in E. cbv zeta in E. cbn [L_miss LEFT_SHOULDER LEFT_ELBOW fst snd] in E.
  rewrite (sqrt_val ((0 - 0) ^ 2 + (0 - 0) ^ 2) 0) in E by (lra || ring). lra.
Qed.

Lemma filter_repeat {A} (f : A -> bool) (x : A) (n : nat) :
  List.filter f (repeat x n) = if f x then repeat x n else [].
Proof.
  induction n as [|n IH]; simpl; [destruct (f x); reflexivity|].
  rewrite IH. destruct (f x); reflexivity.
Qed.

(** 33 frames of which 6 are hits: 6 is below 20% of 33 (6.6), yet the
    series is classified as tennis because the threshold is
    [max(6, int(0.2 * 33)) = 6]. *)
Lemma guess_sport_truncated_threshold :
  let series := repeat L_hit 6 ++ repeat L_miss 27 in
  PoseOverlay._guess_sport_from_pose_series series = cps "tennis" /\
  length (List.filter PoseOverlay.is_hit series) = 6%nat /\ length series = 33%nat /\
  ~ (INR 6 >= Rmax 6 (0.2 * INR 33)).
Proof.
  intros series.
  assert (H : List.filter PoseOverlay.is_hit series = repeat L_hit 6).
  { unfold series. rewrite List.filter_app, !filter_repeat, po_L_hit, po_L_miss.
    apply app_nil_r. }
  split; [|split; [rewrite H; reflexivity | split; [reflexivity|]]].
  - unfold PoseOverlay._guess_sport_from_pose_series. rewrite H. reflexivity.
  - rewrite Rmax_right; simpl; lra.
Qed.

(** C7: both motion heuristics count a frame as a hit exactly when the
    left elbow-to-shoulder distance exceeds 0.20, its horizontal component
    exceeds 0.15 and the shoulder-elbow-wrist angle lies strictly between 60
    and 120 degrees; they answer "tennis" exactly when the hit count is at
    least [max(6, int(0.2 * n))] and "unknown" otherwise, where [n] is the
    number of frames with a detected body ([_guess_sport_from_pose_series])
    or the number of decoded frames, at most 120 ([detect_sport_from_gcs]). *)
Theorem motion_heuristics_spec :
  (forall lm, PoseOverlay.is_hit lm = true <->
     let LSH := LEFT_SHOULDER lm in
     let LEL := LEFT_ELBOW lm in
     let ang := PoseOverlay._angle LSH LEL (LEFT_WRIST lm) in
     0.20 < sqrt ((fst LEL - fst LSH) ^ 2 + (snd LEL - snd LSH) ^ 2) /\
     0.15 < Rabs (fst LEL - fst LSH) /\ 60 < ang /\ ang < 120) /\
  (forall series,
     (PoseOverlay._guess_sport_from_pose_series series = cps "tennis" <->
      (Nat.max 6 (length series / 5) <= length (List.filter PoseOverlay.is_hit series))%nat) /\
     (PoseOverlay._guess_sport_from_pose_series series = cps "tennis" \/
      PoseOverlay._guess_sport_from_pose_series series = cps "unknown")) /\
  (forall lm, SportDetect.is_hit lm = true <->
     let shoulder := LEFT_SHOULDER lm in
     let elbow := LEFT_ELBOW lm in
     let ang := SportDetect._angle shoulder elbow (LEFT_WRIST lm) in
     0.20 < SportDetect.dist elbow shoulder /\
     0.15 < Rabs (fst elbow - fst shoulder) /\ 60 < ang /\ ang < 120) /\
  (forall video,
     let evaluated := firstn SportDetect.max_frames video in
     (SportDetect.detect_sport_from_gcs video = cps "tennis" <->
      (Nat.max 6 (length evaluated / 5) <= sd_hits evaluated)%nat) /\
     (SportDetect.detect_sport_from_gcs video = cps "tennis" \/
      SportDetect.detect_sport_from_gcs video = cps "unknown")).
Proof.
  pose proof labels_distinct as D.
  split; [intros lm; apply po_is_hit_iff|].
  split.
  - intros series. unfold PoseOverlay._guess_sport_from_pose_series.
    destruct series as [|lm rest].
    + simpl. split; [split; [intros H; congruence | simpl; lia] | right; reflexivity].
    + destruct (Nat.leb _ _) eqn:E.
      * apply Nat.leb_le in E. split; [tauto | left; reflexivity].
      * apply Nat.leb_gt in E. split; [split; [intros H; congruence | lia] | right; reflexivity].
  - split; [intros lm; apply sd_is_hit_iff|].
    intros video evaluated. unfold SportDetect.detect_sport_from_gcs.
    rewrite scan_spec by (unfold SportDetect.max_frames; lia).
    rewrite Nat.sub_0_r. fold evaluated. simpl.
    destruct (Nat.leb _ _) eqn:E.
    + apply Nat.leb_le in E. split; [tauto | left; reflexivity].
    + apply Nat.leb_gt in E. split; [split; [intros H; congruence | lia] | right; reflexivity].
Qed.

End MotionFacts.

(* ------------------------------------------------------------------ *)
(** ** Sport label of a job *)

Module SportResolutionFacts.
Import Pipeline MotionFacts.
Local Open Scope R_scope.

Lemma process_job_body_video (e : env) job_id object_path provided_sport provided_focus r :
  process_job_body e job_id object_path provided_sport provided_focus = inr r ->
  exists v, decode e = inr v /\
    r_sport r = PyStr.py_or provided_sport
                  (simple_auto_sport (v_width v) (v_height v)
                     (if Req_EM_T (v_fps v) 0 then 24 else v_fps v)).
Proof.
  unfold process_job_body, bindM, raise_opt.
  destruct (download_to_filename e); [discriminate|].
  destruct (decode e) as [x|v]; [discriminate|].
  destruct (run_ffmpeg e); [discriminate|].
  destruct (upload_from_filename e); [discriminate|].
  destruct (generate_signed_url e); [discriminate|].
  intros H. injection H as <-. exists v. split; reflexivity.
Qed.

(** The video of the example: 400x800 at 30 fps, six frames with a sideways,
    bent left arm. *)
Definition ex_video : video := mk_video 400 800 30 (repeat (Some L_hit) 6).

Definition ex_env : env :=
  mk_env None (inr ex_video) None None (inr (cps "https://example/overlay.mp4")).

Lemma sd_hits_repeat (lm : landmarks) (n : nat) :
  sd_hits (repeat (Some lm) n) = if SportDetect.is_hit lm then n else 0%nat.
Proof.
  unfold sd_hits. induction n as [|n IH]; simpl; [destruct (SportDetect.is_hit lm); reflexivity|].
  destruct (SportDetect.is_hit lm); simpl; [rewrite IH; reflexivity | exact IH].
Qed.

(** A job with no sport hint on a portrait video is labelled "running" by the
    shape heuristic, although both motion heuristics label its landmark
    series "tennis". *)
Lemma job_sport_ignores_motion :
  exists r,
    process_job_body ex_env (cps "job") (cps "uploads/clip.mp4") None None = inr r /\
    r_sport r = cps "running" /\
    SportDetect.detect_sport_from_gcs (v_frames ex_video) = cps "tennis" /\
    PoseOverlay._guess_sport_from_pose_series (present (v_frames ex_video)) = cps "tennis".
Proof.
  eexists. split; [reflexivity|]. split; [reflexivity|]. split.
  - unfold SportDetect.detect_sport_from_gcs.
    rewrite scan_spec by (unfold SportDetect.max_frames; lia).
    change (firstn (SportDetect.max_frames - 0) (v_frames ex_video)) with (repeat (Some L_hit) 6).
    rewrite sd_hits_repeat, sd_L_hit. reflexivity.
  - change (present (v_frames ex_video)) with (repeat L_hit 6).
    unfold PoseOverlay._guess_sport_from_pose_series.
    rewrite filter_repeat, po_L_hit. reflexivity.
Qed.

(** C5: the sport label of a successful job is the caller's hint when it is
    a non-empty string, and otherwise the shape heuristic's label for the
    video's width, height and frame rate (24 when the frame rate reads as
    0); the landmark series is never consulted.  A 400x800 video gives
    "running". *)
Theorem job_sport_resolution (e : env) job_id object_path provided_sport provided_focus r
  (Hok : process_job_body e job_id object_path provided_sport provided_focus = inr r) :
  exists v, decode e = inr v /\
    r_sport r = PyStr.py_or provided_sport
                  (simple_auto_sport (v_width v) (v_height v)
                     (if Req_EM_T (v_fps v) 0 then 24 else v_fps v)) /\
    (forall frames, exists r',
       process_job_body (mk_env (download_to_filename e)
                           (inr (mk_video (v_width v) (v_height v) (v_fps v) frames))
                           (run_ffmpeg e) (upload_from_filename e) (generate_signed_url e))
         job_id object_path provided_sport provided_focus = inr r' /\
       r_sport r' = r_sport r).
Proof.
  destruct (process_job_body_video e job_id object_path provided_sport provided_focus r Hok)
    as (v & Hv & Hs).
  exists v. split; [exact Hv|]. split; [exact Hs|].
  intros frames. revert Hok Hs.
  unfold process_job_body, bindM, raise_opt. rewrite Hv.
  destruct (download_to_filename e); [discriminate|].
  destruct (run_ffmpeg e); [discriminate|].
  destruct (upload_from_filename e); [discriminate|].
  destruct (generate_signed_url e); [discriminate|].
  intros H Hs. injection H as <-. eexists. split; reflexivity.
Qed.

Lemma job_sport_resolution_witness :
  exists r,
    process_job_body ex_env (cps "job") (cps "uploads/clip.mp4") None None = inr r /\
    r_sport r = cps "running".
Proof.
  eexists. split; [reflexivity|].
  destruct (job_sport_resolution ex_env (cps "job") (cps "uploads/clip.mp4") None None _
              ltac:(reflexivity)) as (v & Hv & Hs & _).
  rewrite Hs. injection Hv as <-. reflexivity.
Defined.

End SportResolutionFacts.

(* ------------------------------------------------------------------ *)
(** ** Failures of the background job *)

Module FailureFacts.
Import Pipeline.

(** The exception of the first external call that fails, in the order the
    job makes them. *)
Definition first_failure (e : env) : option exn :=
  match download_to_filename e with
  | Some x => Some x
  | None =>
    match decode e with
    | inl x => Some x
    | inr _ =>
      match run_ffmpeg e with
      | Some x => Some x
      | None =>
        match upload_from_filename e with
        | Some x => Some x
        | None =>
          match generate_signed_url e with
          | inl x => Some x
          | inr _ => None
          end
        end
      end
    end
  end.

Lemma process_job_body_first_failure e job_id object_path provided_sport provided_focus :
  match process_job_body e job_id object_path provided_sport provided_focus with
  | inl x => first_failure e = Some x
  | inr _ => first_failure e = None
  end.
Proof.
  unfold process_job_body, first_failure, bindM, raise_opt.
  destruct (download_to_filename e); [reflexivity|].
  destruct (decode e); [reflexivity|].
  destruct (run_ffmpeg e); [reflexivity|].
  destruct (upload_from_filename e); [reflexivity|].
  destruct (generate_signed_url e); reflexivity.
Qed.

(** The stage kinds a diagnostic would have to tell apart. *)
Inductive error_kind := FetchFailed | DecodeFailed | TranscodeFailed | UploadFailed | Internal.

Definition clip : video := mk_video 640 480 30%R [].

Definition env_fetch_fails (msg : text) : env :=
  mk_env (Some (Exception msg)) (inr clip) None None (inr (cps "https://example/overlay.mp4")).

Definition env_upload_fails (msg : text) : env :=
  mk_env None (inr clip) None (Some (Exception msg)) (inr (cps "https://example/overlay.mp4")).

(** A failed download and a failed upload raising the same message leave the
    same assignments, so no reading of the job's record can tell which stage
    failed. *)
Lemma failure_stage_not_recorded :
  let j := cps "job" in
  let p := cps "uploads/clip.mp4" in
  process_job (env_fetch_fails (cps "boom")) j p None None
  = process_job (env_upload_fails (cps "boom")) j p None None /\
  ~ exists classify : list write -> error_kind,
      classify (process_job (env_fetch_fails (cps "boom")) j p None None) = FetchFailed /\
      classify (process_job (env_upload_fails (cps "boom")) j p None None) = UploadFailed.
Proof.
  intros j p.
  assert (E : process_job (env_fetch_fails (cps "boom")) j p None None
              = process_job (env_upload_fails (cps "boom")) j p None None) by reflexivity.
  split; [exact E|].
  intros (classify & H1 & H2). rewrite E in H1. congruence.
Qed.

(** C2: whichever external call of the job fails first decides the
    assignments it leaves, and the later calls are not made (their outcome
    does not matter): status ERROR, then the result
    [{"error": "ffmpeg transcode failed", "stderr": ...}] for a
    [CalledProcessError] and [{"error": str(e)}] for any other exception;
    when no call fails, status DONE and the success payload.  Either way the
    job's two assignments set a terminal status.  The failing stage itself is
    not recorded. *)
Theorem process_job_failure_spec :
  forall e job_id object_path provided_sport provided_focus,
    let ws := process_job e job_id object_path provided_sport provided_focus in
    (forall err, first_failure e = Some (CalledProcessError err) ->
       ws = [WStatus ERROR; WResult (RError (cps "ffmpeg transcode failed") (Some err))]) /\
    (forall msg, first_failure e = Some (Exception msg) ->
       ws = [WStatus ERROR; WResult (RError msg None)]) /\
    (first_failure e = None -> exists r, ws = [WStatus DONE; WResult (RDone r)]) /\
    (exists st rv, ws = [WStatus st; WResult rv] /\ st <> PROCESSING) /\
    (forall e', first_failure e = first_failure e' -> first_failure e <> None ->
       process_job e' job_id object_path provided_sport provided_focus = ws).
Proof.
  intros e job_id object_path provided_sport provided_focus ws.
  assert (Hws : forall e0,
    process_job e0 job_id object_path provided_sport provided_focus =
    match first_failure e0 with
    | Some (CalledProcessError err) =>
        [WStatus ERROR; WResult (RError (cps "ffmpeg transcode failed") (Some err))]
    | Some (Exception msg) => [WStatus ERROR; WResult (RError msg None)]
    | None => process_job e0 job_id object_path provided_sport provided_focus
    end).
  { intros e0. pose proof (process_job_body_first_failure e0 job_id object_path
                             provided_sport provided_focus) as F.
    unfold process_job at 1.
    destruct (process_job_body e0 _ _ _ _) as [x|r] eqn:B; rewrite F.
    - destruct x as [err|msg]; [|reflexivity]. destruct err; reflexivity.
    - unfold process_job. rewrite B. reflexivity. }
  unfold ws. rewrite (Hws e).
  pose proof (process_job_body_first_failure e job_id object_path
                provided_sport provided_focus) as F.
  split; [intros err ->; reflexivity|].
  split; [intros msg ->; reflexivity|].
  split.
  - intros Hn. rewrite Hn. unfold process_job.
    destruct (process_job_body e _ _ _ _) as [x|r]; [congruence|]. eexists; reflexivity.
  - split.
    + destruct (first_failure e) as [[err|msg]|] eqn:Ff.
      * do 2 eexists; split; [reflexivity | discriminate].
      * do 2 eexists; split; [reflexivity | discriminate].
      * unfold process_job. destruct (process_job_body e _ _ _ _); [congruence|].
        do 2 eexists; split; [reflexivity | discriminate].
    + intros e' Hee Hne. rewrite (Hws e'), <- Hee.
      destruct (first_failure e) as [[err|msg]|]; [reflexivity | reflexivity | congruence].
Qed.

End FailureFacts.

(* ------------------------------------------------------------------ *)
(** ** Lifecycle of a job in the store *)

Module LifecycleFacts.
Import Pipeline.

(** How a job record relates to the assignments its task still has to
    perform: both pending, the status written, or both written. *)
Definition consistent (j : job) (ws : list write) : Prop :=
  (j_status j = PROCESSING /\ j_result j = None /\
     exists st r, ws = [WStatus st; WResult r] /\ st <> PROCESSING)
  \/ (j_status j <> PROCESSING /\ j_result j = None /\ exists r, ws = [WResult r])
  \/ (j_status j <> PROCESSING /\ j_result j <> None /\ ws = []).

Record inv (s : server) : Prop := {
  inv_nodup : List.NoDup (map fst (tasks s));
  inv_job : forall id j, JOBS s !! id = Some j -> exists ws, In (id, ws) (tasks s);
  inv_task : forall id ws, In (id, ws) (tasks s) ->
               exists j, JOBS s !! id = Some j /\ consistent j ws
}.

Lemma process_job_shape e job_id object_path provided_sport provided_focus :
  exists st r, process_job e job_id object_path provided_sport provided_focus
               = [WStatus st; WResult r] /\ st <> PROCESSING.
Proof.
  unfold process_job.
  destruct (process_job_body _ _ _ _ _) as [[err|msg]|r];
    do 2 eexists; split; first [reflexivity | discriminate].
Qed.

Lemma consistent_step j w ws :
  consistent j (w :: ws) -> consistent (apply_write w j) ws.
Proof.
  intros [(Hs & Hr & st & r & E & Hst) | [(Hs & Hr & r & E) | (_ & _ & E)]].
  - injection E as -> ->. right; left. simpl. split; [exact Hst|]. split; [exact Hr|].
    eexists; reflexivity.
  - injection E as -> ->. right; right. simpl. split; [exact Hs|]. split; [discriminate|reflexivity].
  - discriminate.
Qed.

Lemma inv_init : inv init.
Proof.
  split; simpl.
  - constructor.
  - intros id j H. rewrite lookup_empty in H. discriminate.
  - intros id ws [].
Qed.

Lemma in_middle {A} (x a : A) t1 t2 :
  In x (t1 ++ a :: t2) <-> x = a \/ In x (t1 ++ t2).
Proof. rewrite !in_app_iff. simpl. split; intros H; intuition congruence. Qed.

Lemma inv_step s s' : inv s -> step s s' -> inv s'.
Proof.
  intros [Hnd Hjob Htask] Hst. destruct Hst as
    [s id path psport pfocus e Hfresh Hpath | s t1 t2 id w ws Ht].
  - assert (Hnotin : ~ In id (map fst (tasks s))).
    { intros Hin. apply in_map_iff in Hin as ([id' ws'] & Heq & Hin). simpl in Heq; subst id'.
      destruct (Htask id ws' Hin) as (j & Hj & _). congruence. }
    split; simpl.
    + rewrite map_app. simpl.
      apply (Permutation_NoDup (l := id :: map fst (tasks s))).
      * apply Permutation_cons_append.
      * constructor; assumption.
    + intros id' j Hj. destruct (decide (id = id')) as [<-|Hne].
      * eexists. apply in_app_iff. right. left. reflexivity.
      * rewrite lookup_insert_ne in Hj by exact Hne.
        destruct (Hjob id' j Hj) as (ws & Hin). exists ws. apply in_app_iff. left. exact Hin.
    + intros id' ws' Hin. apply in_app_iff in Hin as [Hin | [Heq | []]].
      * destruct (Htask id' ws' Hin) as (j & Hj & Hc). exists j.
        rewrite lookup_insert_ne by congruence. split; assumption.
      * injection Heq as <- <-. eexists. rewrite lookup_insert_eq. split; [reflexivity|].
        left. simpl. split; [reflexivity|]. split; [reflexivity|]. apply process_job_shape.
  - assert (Hin0 : In (id, w :: ws) (tasks s)) by (rewrite Ht; apply in_middle; left; reflexivity).
    destruct (Htask id (w :: ws) Hin0) as (j0 & Hj0 & Hc0).
    assert (Hnd' : List.NoDup (map fst t1 ++ id :: map fst t2)).
    { rewrite Ht, map_app in Hnd. exact Hnd. }
    assert (Hout : ~ In id (map fst (t1 ++ t2))).
    { rewrite map_app. apply NoDup_remove_2. exact Hnd'. }
    assert (Hmem : forall id' ws', In (id', ws') (t1 ++ t2) -> id' <> id /\ In (id', ws') (tasks s)).
    { intros id' ws' H. split.
      - intros ->. apply Hout. apply in_map_iff. exists (id, ws'). split; [reflexivity | exact H].
      - rewrite Ht. apply in_middle. right. exact H. }
    unfold run_write. rewrite Hj0.
    split; simpl.
    + rewrite map_app. simpl. exact Hnd'.
    + intros id' j Hj. destruct (decide (id = id')) as [<-|Hne].
      * exists ws. apply in_middle. left. reflexivity.
      * rewrite lookup_insert_ne in Hj by exact Hne.
        destruct (Hjob id' j Hj) as (ws' & Hin). exists ws'.
        rewrite Ht in Hin. apply in_middle in Hin as [Heq | Hin].
        { injection Heq as Heq _. congruence. }
        apply in_middle. right. exact Hin.
    + intros id' ws' Hin. apply in_middle in Hin as [Heq | Hin].
      * injection Heq as -> ->. exists (apply_write w j0). rewrite lookup_insert_eq.
        split; [reflexivity|]. apply consistent_step, Hc0.
      * destruct (Hmem id' ws' Hin) as (Hne & Hold).
        destruct (Htask id' ws' Hold) as (j & Hj & Hc). exists j.
        rewrite lookup_insert_ne by congruence. split; assumption.
Qed.

Lemma inv_rtc s s' : inv s -> rtc step s s' -> inv s'.
Proof. intros H Hs. induction Hs as [|x y z Hxy _ IH]; [exact H|]. apply IH, (inv_step x y H Hxy). Qed.

Lemma reachable_inv s : reachable s -> inv s.
Proof. intros H. apply (inv_rtc init s inv_init H). Qed.

(** What a single step can do to a job already in the store. *)
Definition job_evolves (j j' : job) : Prop :=
  j_object_path j' = j_object_path j /\
  (j_status j <> PROCESSING -> j_status j' = j_status j) /\
  (j_result j <> None -> j' = j).

Lemma job_evolves_refl j : job_evolves j j.
Proof. split; [reflexivity|]. split; intros _; reflexivity. Qed.

Lemma job_evolves_trans j1 j2 j3 : job_evolves j1 j2 -> job_evolves j2 j3 -> job_evolves j1 j3.
Proof.
  intros (P12 & S12 & R12) (P23 & S23 & R23). split; [congruence|]. split.
  - intros H. rewrite S23; [apply S12, H|]. rewrite S12 by exact H. exact H.
  - intros H. pose proof (R12 H) as <-. apply R23, H.
Qed.

Lemma step_job s s' id j :
  inv s -> step s s' -> JOBS s !! id = Some j ->
  exists j', JOBS s' !! id = Some j' /\ job_evolves j j'.
Proof.
  intros [Hnd Hjob Htask] Hst Hj. destruct Hst as
    [s id0 path psport pfocus e Hfresh Hpath | s t1 t2 id0 w ws Ht]; simpl.
  - exists j. rewrite lookup_insert_ne by congruence. split; [exact Hj | apply job_evolves_refl].
  - assert (Hin0 : In (id0, w :: ws) (tasks s)) by (rewrite Ht; apply in_middle; left; reflexivity).
    destruct (Htask id0 (w :: ws) Hin0) as (j0 & Hj0 & Hc0).
    unfold run_write. rewrite Hj0.
    destruct (decide (id0 = id)) as [<-|Hne].
    + rewrite lookup_insert_eq. eexists. split; [reflexivity|].
      rewrite Hj in Hj0. injection Hj0 as <-.
      destruct Hc0 as [(Hs & Hr & st & r & E & Hst) | [(Hs & Hr & r & E) | (_ & _ & E)]];
        [| |discriminate].
      * injection E as -> ->. split; [reflexivity|]. split; intros H; congruence.
      * injection E as -> ->. split; [reflexivity|]. split; [reflexivity | intros H; congruence].
    + rewrite lookup_insert_ne by exact Hne. exists j. split; [exact Hj | apply job_evolves_refl].
Qed.

Lemma rtc_job s s' id j :
  inv s -> rtc step s s' -> JOBS s !! id = Some j ->
  exists j', JOBS s' !! id = Some j' /\ job_evolves j j'.
Proof.
  intros Hinv Hs. revert j. induction Hs as [x|x y z Hxy Hyz IH]; intros j Hj.
  - exists j. split; [exact Hj | apply job_evolves_refl].
  - destruct (step_job x y id j Hinv Hxy Hj) as (j1 & Hj1 & E1).
    destruct (IH (inv_step x y Hinv Hxy) j1 Hj1) as (j2 & Hj2 & E2).
    exists j2. split; [exact Hj2 | apply (job_evolves_trans j j1 j2 E1 E2)].
Qed.

(** Every change a step makes to what a status query answers for a job
    already in the store is one of the two assignments of its task: the
    terminal status with no payload yet, or then the payload under the same
    status. *)
Lemma step_query_change t t' id :
  inv t -> step t t' -> status_query t id <> None ->
  status_query t' id <> status_query t id ->
  (status_query t id = Some (PROCESSING, None) /\
   exists st, st <> PROCESSING /\ status_query t' id = Some (st, None)) \/
  (exists st r, st <> PROCESSING /\ status_query t id = Some (st, None) /\
   status_query t' id = Some (st, Some r)).
Proof.
  intros [Hnd Hjob Htask] Hst Hex Hch. unfold status_query in *.
  destruct (JOBS t !! id) as [j0|] eqn:Hj0; [|congruence].
  destruct Hst as [t id0 path psport pfocus e Hfresh Hpath | t t1 t2 id0 w ws Ht]; simpl in *.
  - rewrite lookup_insert_ne in Hch by congruence. rewrite Hj0 in Hch. congruence.
  - assert (Hin0 : In (id0, w :: ws) (tasks t)) by (rewrite Ht; apply in_middle; left; reflexivity).
    destruct (Htask id0 (w :: ws) Hin0) as (j & Hj & Hc).
    unfold run_write in *. rewrite Hj in Hch |- *.
    destruct (decide (id0 = id)) as [<-|Hne].
    + rewrite lookup_insert_eq in Hch |- *. rewrite Hj0 in Hj. injection Hj as <-.
      destruct Hc as [(Hs & Hr & st & r & E & Hst) | [(Hs & Hr & r & E) | (_ & _ & E)]];
        [| |discriminate].
      * injection E as -> ->. left. simpl. rewrite Hs, Hr.
        split; [reflexivity|]. exists st. split; [exact Hst | reflexivity].
      * injection E as -> ->. right. exists (j_status j0), r. simpl. rewrite Hr.
        split; [exact Hs|]. split; reflexivity.
    + rewrite lookup_insert_ne in Hch by exact Hne. rewrite Hj0 in Hch. congruence.
Qed.

(** A job whose status is terminal but whose payload is not written yet:
    its task can perform the payload assignment next. *)
Lemma payload_pending s id j :
  inv s -> JOBS s !! id = Some j -> j_status j <> PROCESSING -> j_result j = None ->
  exists r s', step s s' /\ status_query s' id = Some (j_status j, Some r).
Proof.
  intros [Hnd Hjob Htask] Hj Hs Hr.
  destruct (Hjob id j Hj) as (ws & Hin).
  destruct (Htask id ws Hin) as (j0 & Hj0 & Hc). rewrite Hj in Hj0. injection Hj0 as <-.
  destruct Hc as [(Hs' & _) | [(_ & _ & r & ->) | (_ & Hr' & _)]]; [congruence | | congruence].
  destruct (in_split _ _ Hin) as (l1 & l2 & Ht).
  exists r. eexists. split; [apply (step_task s l1 l2 id (WResult r) [] Ht)|].
  unfold status_query, run_write. simpl. rewrite Hj, lookup_insert_eq. reflexivity.
Qed.

(** A job still PROCESSING: its task can perform its two assignments, the
    terminal status first and then the payload. *)
Lemma status_then_payload s id j :
  inv s -> JOBS s !! id = Some j -> j_status j = PROCESSING ->
  exists st r s_mid s_end, step s s_mid /\ step s_mid s_end /\ st <> PROCESSING /\
    status_query s_mid id = Some (st, None) /\ status_query s_end id = Some (st, Some r).
Proof.
  intros [Hnd Hjob Htask] Hj Hs.
  destruct (Hjob id j Hj) as (ws & Hin).
  destruct (Htask id ws Hin) as (j0 & Hj0 & Hc). rewrite Hj in Hj0. injection Hj0 as <-.
  destruct Hc as [(_ & Hr & st & r & -> & Hst) | [(Hs' & _) | (Hs' & _)]]; [| congruence | congruence].
  destruct (in_split _ _ Hin) as (l1 & l2 & Ht).
  set (s_mid := mk_server (run_write id (WStatus st) (JOBS s)) (l1 ++ (id, [WResult r]) :: l2)).
  exists st, r, s_mid.
  eexists. split; [apply (step_task s l1 l2 id (WStatus st) [WResult r] Ht)|].
  split; [apply (step_task s_mid l1 l2 id (WResult r) [] eq_refl)|].
  split; [exact Hst|].
  unfold status_query, s_mid, run_write. cbn [JOBS]. rewrite Hj, !lookup_insert_eq.
  cbn [apply_write j_status j_result]. rewrite Hr. split; reflexivity.
Qed.

(** A concrete run: a job whose download fails with "404 Not Found". *)
Definition env_404 : env :=
  mk_env (Some (Exception (cps "404 Not Found"))) (inr (mk_video 640 480 30%R []))
         None None (inr (cps "https://example/overlay.mp4")).

Definition jid : text := cps "0b6f2c4e-job".
Definition jpath : text := cps "uploads/a.mp4".
Definition err_404 : result_value := RError (cps "404 Not Found") None.

Definition s1 : server :=
  mk_server (<[jid := mk_job PROCESSING jpath None]> ∅) [(jid, [WStatus ERROR; WResult err_404])].
Definition s2 : server :=
  mk_server (run_write jid (WStatus ERROR) (JOBS s1)) [(jid, [WResult err_404])].
Definition s3 : server :=
  mk_server (run_write jid (WResult err_404) (JOBS s2)) [(jid, [])].

Lemma step_s1 : step init s1.
Proof.
  exact (step_create_job init jid jpath None None env_404 (lookup_empty jid)
           ltac:(discriminate)).
Qed.

Lemma step_s2 : step s1 s2.
Proof. exact (step_task s1 [] [] jid (WStatus ERROR) [WResult err_404] eq_refl). Qed.

Lemma step_s3 : step s2 s3.
Proof. exact (step_task s2 [] [] jid (WResult err_404) [] eq_refl). Qed.

Lemma reachable_s2 : reachable s2.
Proof. apply (rtc_l _ _ s1); [exact step_s1|]. apply rtc_once, step_s2. Qed.

(** Between the job's two assignments a status query sees the terminal
    status ERROR with no payload; the next step changes the answer to the
    error payload. *)
Lemma status_written_before_result :
  reachable s2 /\ step s2 s3 /\
  status_query s1 jid = Some (PROCESSING, None) /\
  status_query s2 jid = Some (ERROR, None) /\
  status_query s3 jid = Some (ERROR, Some err_404).
Proof.
  split; [exact reachable_s2|]. split; [exact step_s3|].
  repeat split; reflexivity.
Qed.

(** C1: a job enters the store as PROCESSING with no result.  Every change
    a step makes to the status query of a job is one of two assignments of
    its background task: first the terminal status, with no payload yet, so
    that a query in between sees the terminal status and no payload; then
    the payload under that same status.  A job of a reachable state that is
    still PROCESSING has no result, and its task can perform both
    assignments in this order; a job with a terminal status and no payload
    yet can receive its payload next.  Every later state keeps the job with
    its object path, keeps its status once it is terminal, and once its
    result is written answers every status query exactly as before. *)
Theorem job_lifecycle (s s' : server) (id : text) (j : job)
  (Hr : reachable s) (Hs : rtc step s s') (Hj : JOBS s !! id = Some j) :
  (forall t t' id' j', reachable t -> step t t' -> JOBS t !! id' = None ->
     JOBS t' !! id' = Some j' -> j_status j' = PROCESSING /\ j_result j' = None) /\
  (forall t t' id', reachable t -> step t t' -> status_query t id' <> None ->
     status_query t' id' <> status_query t id' ->
     (status_query t id' = Some (PROCESSING, None) /\
      exists st, st <> PROCESSING /\ status_query t' id' = Some (st, None)) \/
     (exists st r, st <> PROCESSING /\ status_query t id' = Some (st, None) /\
      status_query t' id' = Some (st, Some r))) /\
  (j_status j = PROCESSING -> j_result j = None) /\
  (j_status j = PROCESSING ->
     exists st r s_mid s_end, step s s_mid /\ step s_mid s_end /\ st <> PROCESSING /\
       status_query s_mid id = Some (st, None) /\ status_query s_end id = Some (st, Some r)) /\
  (j_status j <> PROCESSING -> j_result j = None ->
     exists r s_end, step s s_end /\ status_query s_end id = Some (j_status j, Some r)) /\
  exists j', JOBS s' !! id = Some j' /\
    j_object_path j' = j_object_path j /\
    (j_status j <> PROCESSING -> j_status j' = j_status j) /\
    (j_result j <> None -> status_query s' id = status_query s id).
Proof.
  pose proof (reachable_inv s Hr) as Hinv.
  split.
  - intros t t' id' j' Ht Hst Hnone Hsome. pose proof (reachable_inv t Ht) as [_ _ Htask].
    destruct Hst as [t id0 path psport pfocus e Hfresh Hpath | t t1 t2 id0 w ws Htk];
      simpl in Hsome.
    + destruct (decide (id0 = id')) as [<-|Hne].
      * rewrite lookup_insert_eq in Hsome. injection Hsome as <-. split; reflexivity.
      * rewrite lookup_insert_ne in Hsome by exact Hne. congruence.
    + assert (Hin0 : In (id0, w :: ws) (tasks t)) by (rewrite Htk; apply in_middle; left; reflexivity).
      destruct (Htask id0 (w :: ws) Hin0) as (j0 & Hj0 & _).
      unfold run_write in Hsome. rewrite Hj0 in Hsome.
      rewrite lookup_insert_ne in Hsome by congruence. congruence.
  - split; [intros t t' id' Ht; apply step_query_change, reachable_inv, Ht|].
    split; [|split; [intros Hp; apply (status_then_payload s id j Hinv Hj Hp)|
                     split; [intros Hp Hn; apply (payload_pending s id j Hinv Hj Hp Hn)|]]].
    + intros Hp. destruct Hinv as [_ Hjob Htask].
      destruct (Hjob id j Hj) as (ws & Hin).
      destruct (Htask id ws Hin) as (j0 & Hj0 & Hc). rewrite Hj in Hj0. injection Hj0 as <-.
      destruct Hc as [(_ & H & _) | [(_ & H & _) | (H & _)]]; [exact H | exact H | congruence].
    + destruct (rtc_job s s' id j Hinv Hs Hj) as (j' & Hj' & P & S & R).
      exists j'. split; [exact Hj'|]. split; [exact P|]. split; [exact S|].
      intros Hn. unfold status_query. rewrite Hj', Hj, (R Hn). reflexivity.
Qed.

Lemma job_lifecycle_witness :
  exists j', JOBS s3 !! jid = Some j' /\ j_status j' = ERROR.
Proof.
  destruct (job_lifecycle s2 s3 jid (mk_job ERROR jpath None) reachable_s2
              (rtc_once _ _ step_s3) ltac:(reflexivity)) as (_ & _ & _ & _ & _ & j' & Hj' & _ & Hst & _).
  exists j'. split; [exact Hj'|]. rewrite Hst; [reflexivity | discriminate].
Defined.

End LifecycleFacts.

(* ================================================================== *)
(** * Further properties of the code *)

(* ------------------------------------------------------------------ *)
(** ** The three angle helpers *)

Module AngleFacts.
Import Geometry GeometryFacts MotionFacts.
Local Open Scope R_scope.

Lemma dist_sym (a b : point) : _dist a b = _dist b a.
Proof. unfold _dist. f_equal. ring. Qed.

Lemma sd_dist_sym (a b : point) : SportDetect.dist a b = SportDetect.dist b a.
Proof. unfold SportDetect.dist. f_equal. ring. Qed.

(** The angle at [b] does not depend on the order of its two end points, in
    all three helpers. *)
Theorem angle_helpers_symmetric (a b c : point) :
  _angle a b c = _angle c b a /\
  PoseOverlay._angle a b c = PoseOverlay._angle c b a /\
  SportDetect._angle a b c = SportDetect._angle c b a.
Proof.
  split; [|split].
  - unfold _angle. cbv zeta. rewrite (dist_sym c a).
    destruct (Req_EM_T (_dist a b) 0); destruct (Req_EM_T (_dist c b) 0); try reflexivity.
    do 5 f_equal. unfold Rdiv. f_equal; [ring | f_equal; ring].
  - unfold PoseOverlay._angle. cbv zeta. cbn [fst snd].
    set (n1 := sqrt ((fst a - fst b) ^ 2 + (snd a - snd b) ^ 2)).
    set (n2 := sqrt ((fst c - fst b) ^ 2 + (snd c - snd b) ^ 2)).
    do 4 f_equal. unfold Rdiv. f_equal; [ring | f_equal; ring].
  - unfold SportDetect._angle. cbv zeta.
    rewrite (sd_dist_sym c b), (sd_dist_sym b a), (sd_dist_sym c a).
    do 4 f_equal. unfold Rdiv. f_equal; [ring | f_equal; f_equal; ring].
Qed.

Lemma po_angle_degenerate (a b : point) :
  PoseOverlay._angle a b b = 90 /\ PoseOverlay._angle b b a = 90.
Proof.
  split; unfold PoseOverlay._angle; cbv zeta; cbn [fst snd];
    (replace (0 - 0) with 0 by ring || idtac);
    rewrite ?Rminus_diag, ?pow_ne_zero by lia;
    match goal with |- context [ (?x * ?y + ?z * ?w) / ?d ] =>
      replace ((x * y + z * w) / d) with 0 by (unfold Rdiv; rewrite ?Rminus_diag; ring)
    end;
    rewrite Rmin_left, Rmax_left by lra; apply degrees_acos_0.
Qed.

Lemma sd_angle_degenerate (a b : point) :
  SportDetect._angle a b b = 90 /\ SportDetect._angle b b a = 90.
Proof.
  split; unfold SportDetect._angle; cbv zeta;
    match goal with |- context [ (?x / ?d) ] =>
      replace (x / d) with 0 by
        (unfold SportDetect.dist; rewrite ?Rminus_diag;
         replace (0 ^ 2 + 0 ^ 2) with 0 by ring; rewrite ?sqrt_0;
         unfold Rdiv; try (rewrite (sd_dist_sym b a)); ring)
    end;
    rewrite Rmin_left, Rmax_left by lra; apply degrees_acos_0.
Qed.

(** A collapsed edge (an end point on the vertex) makes [_angle] of main.py
    absent, but gives 90 degrees in both motion heuristics; so a frame whose
    left wrist sits on its left elbow is a hit exactly when the arm passes
    the two length tests. *)
Theorem degenerate_angles (a b : point) :
  _angle b b a = None /\ _angle a b b = None /\
  PoseOverlay._angle a b b = 90 /\ PoseOverlay._angle b b a = 90 /\
  SportDetect._angle a b b = 90 /\ SportDetect._angle b b a = 90 /\
  (forall lm, LEFT_WRIST lm = LEFT_ELBOW lm ->
     let LSH := LEFT_SHOULDER lm in
     let LEL := LEFT_ELBOW lm in
     (PoseOverlay.is_hit lm = true <->
        0.20 < sqrt ((fst LEL - fst LSH) ^ 2 + (snd LEL - snd LSH) ^ 2) /\
        0.15 < Rabs (fst LEL - fst LSH)) /\
     (SportDetect.is_hit lm = true <->
        0.20 < SportDetect.dist LEL LSH /\ 0.15 < Rabs (fst LEL - fst LSH))).
Proof.
  destruct (po_angle_degenerate a b) as [P1 P2].
  destruct (sd_angle_degenerate a b) as [S1 S2].
  assert (Z : _dist b b = 0) by (apply dist_zero_iff; reflexivity).
  split; [|split; [|split; [exact P1 | split; [exact P2 | split; [exact S1 | split; [exact S2|]]]]]].
  - unfold _angle. cbv zeta. destruct (Req_EM_T (_dist b b) 0); [reflexivity | contradiction].
  - unfold _angle. cbv zeta.
    destruct (Req_EM_T (_dist a b) 0); [reflexivity|].
    destruct (Req_EM_T (_dist b b) 0); [reflexivity | contradiction].
  - intros lm Hw LSH LEL. split.
    + rewrite po_is_hit_iff. cbv zeta. rewrite Hw.
      rewrite (proj1 (po_angle_degenerate (LEFT_SHOULDER lm) (LEFT_ELBOW lm))).
      split; [intros (A & B & _); split; assumption | intros (A & B); repeat split; try assumption; lra].
    + rewrite sd_is_hit_iff. cbv zeta. rewrite Hw.
      rewrite (proj1 (sd_angle_degenerate (LEFT_SHOULDER lm) (LEFT_ELBOW lm))).
      split; [intros (A & B & _); split; assumption | intros (A & B); repeat split; try assumption; lra].
Qed.

End AngleFacts.

(* ------------------------------------------------------------------ *)
(** ** [_median] and the metrics of [draw_pose_overlay] *)

Module OverlayMetricsFacts.
Import Pipeline GeometryFacts.
Local Open Scope R_scope.

Lemma in_present {A} (xs : list (option A)) (x : A) :
  In x (present xs) <-> In (Some x) xs.
Proof.
  induction xs as [|[y|] xs IH]; simpl; [tauto| |].
  - rewrite IH. split; intros [H|H]; try (right; exact H); left; congruence.
  - rewrite IH. split; [intros H; right; exact H | intros [H|H]; [discriminate | exact H]].
Qed.

Lemma median_some_elems {A} (leb : A -> A -> bool) (mean2 : A -> A -> A)
  (xs : list (option A)) (m : A) :
  _median leb mean2 xs = Some m ->
  In m (present xs) \/
  exists a b, In a (present xs) /\ In b (present xs) /\ m = mean2 a b.
Proof.
  unfold _median. destruct (present xs) as [|y p] eqn:E; [discriminate|].
  cbv zeta.
  pose proof (MedianFacts.sort_perm leb (y :: p)) as Hp.
  destruct (Nat.odd _).
  - intros H. left. apply (Permutation_in _ Hp). eapply nth_error_In. exact H.
  - destruct (nth_error _ (_ - 1)) as [a|] eqn:Ea; [|discriminate].
    destruct (nth_error _ (Nat.div _ 2)) as [b|] eqn:Eb; [|discriminate].
    intros H. injection H as <-. right. exists a, b.
    split; [apply (Permutation_in _ Hp); eapply nth_error_In; exact Ea|].
    split; [apply (Permutation_in _ Hp); eapply nth_error_In; exact Eb | reflexivity].
Qed.

Lemma median_none_iff {A} (leb : A -> A -> bool) (mean2 : A -> A -> A)
  (xs : list (option A)) :
  _median leb mean2 xs = None <-> present xs = [].
Proof.
  unfold _median. destruct (present xs) as [|y p] eqn:E; [tauto|].
  cbv zeta. split; [|discriminate].
  set (s := MedianFacts.sort_perm leb (y :: p)).
  set (l := sort leb (y :: p)) in *.
  assert (Hl : length l = S (length p)) by (rewrite (Permutation_length s); reflexivity).
  set (n := length l) in *.
  assert (Hlt : (n / 2 < n)%nat) by (apply Nat.div_lt; lia).
  destruct (MedianFacts.nth_error_in_range l (n / 2)%nat) as [b Hb]; [exact Hlt|].
  destruct (MedianFacts.nth_error_in_range l (n / 2 - 1)%nat) as [a Ha]; [lia|].
  fold n. destruct (Nat.odd n); [rewrite Hb; discriminate|].
  rewrite Ha, Hb. discriminate.
Qed.

Lemma median_R_bounds_aux (xs : list (option R)) (lo hi m : R) :
  (forall x, In (Some x) xs -> lo <= x <= hi) -> median_R xs = Some m -> lo <= m <= hi.
Proof.
  intros H Hm. apply median_some_elems in Hm as [Hin | (a & b & Ha & Hb & ->)].
  - apply H, in_present, Hin.
  - apply in_present, H in Ha. apply in_present, H in Hb. lra.
Qed.

(** [_median] on floats: it is [None] exactly when every entry is [None], and
    otherwise lies within any bounds that all present entries respect. *)
Theorem median_bounds (xs : list (option R)) (lo hi : R)
  (Hb : forall x, In (Some x) xs -> lo <= x <= hi) :
  (median_R xs = None <-> forall x, ~ In (Some x) xs) /\
  (forall m, median_R xs = Some m -> lo <= m <= hi).
Proof.
  split; [|intros m; apply median_R_bounds_aux, Hb].
  unfold median_R. rewrite median_none_iff. split.
  - intros E x Hin. apply in_present in Hin. rewrite E in Hin. exact Hin.
  - intros H. destruct (present xs) as [|y p] eqn:E; [reflexivity|].
    exfalso. apply (H y), in_present. rewrite E. left. reflexivity.
Qed.

Lemma median_bounds_witness : median_R [Some 1; None; Some 3] <> None.
Proof.
  intros E.
  pose proof (proj1 (proj1 (median_bounds [Some 1; None; Some 3] 0 5
                  ltac:(intros x [Ex | [Ex | [Ex | []]]]; try discriminate; injection Ex as <-; lra))) E)
    as H.
  exact (H 1 (or_introl eq_refl)).
Defined.

Lemma median_R_lower (xs : list (option R)) (lo m : R) :
  (forall x, In (Some x) xs -> lo <= x) -> median_R xs = Some m -> lo <= m.
Proof.
  intros H Hm. apply median_some_elems in Hm as [Hin | (a & b & Ha & Hb & ->)].
  - apply H, in_present, Hin.
  - apply in_present, H in Ha. apply in_present, H in Hb. lra.
Qed.

Lemma angle_some_bound (a b c : Geometry.point) (t : R) :
  Geometry._angle a b c = Some t -> 0 <= t <= 180.
Proof.
  unfold Geometry._angle. cbv zeta.
  destruct (Req_EM_T _ 0); [discriminate|]. destruct (Req_EM_T _ 0); [discriminate|].
  intros H. injection H as <-. apply degrees_acos_bound.
Qed.

Lemma angle_none_iff (a b c : Geometry.point) :
  Geometry._angle a b c = None <-> a = b \/ c = b.
Proof.
  unfold Geometry._angle. cbv zeta.
  destruct (Req_EM_T (Geometry._dist a b) 0) as [E1|E1].
  - apply dist_zero_iff in E1. tauto.
  - destruct (Req_EM_T (Geometry._dist c b) 0) as [E2|E2].
    + apply dist_zero_iff in E2. tauto.
    + rewrite dist_zero_iff in E1, E2. split; [discriminate | tauto].
Qed.

Lemma present_map_nil {A B} (f : A -> option B) (l : list A) :
  present (map f l) = [] <-> forall x, In x l -> f x = None.
Proof.
  induction l as [|x l IH]; simpl; [split; [intros _ _ []|reflexivity]|].
  destruct (f x) as [y|] eqn:E; split.
  - discriminate.
  - intros H. rewrite H in E by (left; reflexivity). discriminate.
  - intros H z [<-|Hz]; [exact E | apply IH; [exact H | exact Hz]].
  - intros H. apply IH. intros z Hz. apply H. right. exact Hz.
Qed.

Lemma in_stance (l : list landmarks) (x : R) :
  In (Some x) (flat_map frame_stance_width l) <->
  exists lm, In lm l /\ 0 < Geometry._dist (LEFT_HIP lm) (RIGHT_HIP lm) /\
    x = Geometry._dist (LEFT_ANKLE lm) (RIGHT_ANKLE lm) / Geometry._dist (LEFT_HIP lm) (RIGHT_HIP lm).
Proof.
  rewrite in_flat_map. unfold frame_stance_width. cbv zeta. split.
  - intros (lm & Hin & Hx). exists lm. split; [exact Hin|].
    destruct (Rltb 0 _) eqn:E; [|destruct Hx].
    apply RecommendationFacts.Rltb_iff in E. destruct Hx as [Hx|[]].
    injection Hx as <-. split; [exact E | reflexivity].
  - intros (lm & Hin & Hpos & ->). exists lm. split; [exact Hin|].
    apply RecommendationFacts.Rltb_iff in Hpos. rewrite Hpos. left. reflexivity.
Qed.

(** The metrics of [draw_pose_overlay]: knee-angle medians lie in
    [[0, 180]] and the stance median is non-negative; the elbow median is
    absent exactly when no frame has a detected body, a knee median exactly
    when every detected frame has the hip or the ankle on that knee, and the
    stance median exactly when every detected frame has both hips on the
    same point. *)
Theorem overlay_metrics_ranges (v : video) :
  let lms := present (v_frames v) in
  let mc := m_metrics_calc (draw_pose_overlay v) in
  (forall a, knee_angle_left_median mc = Some a -> 0 <= a <= 180) /\
  (forall a, knee_angle_right_median mc = Some a -> 0 <= a <= 180) /\
  (forall r, stance_width_ratio_median mc = Some r -> 0 <= r) /\
  (knee_angle_left_median mc = None <->
     forall lm, In lm lms -> LEFT_HIP lm = LEFT_KNEE lm \/ LEFT_ANKLE lm = LEFT_KNEE lm) /\
  (knee_angle_right_median mc = None <->
     forall lm, In lm lms -> RIGHT_HIP lm = RIGHT_KNEE lm \/ RIGHT_ANKLE lm = RIGHT_KNEE lm) /\
  (elbow_drop_median mc = None <-> lms = []) /\
  (stance_width_ratio_median mc = None <->
     forall lm, In lm lms -> LEFT_HIP lm = RIGHT_HIP lm).
Proof.
  intros lms mc.
  assert (KL : knee_angle_left_median mc =
    median_R (map (fun lm => Geometry._angle (LEFT_HIP lm) (LEFT_KNEE lm) (LEFT_ANKLE lm)) lms))
    by reflexivity.
  assert (KR : knee_angle_right_median mc =
    median_R (map (fun lm => Geometry._angle (RIGHT_HIP lm) (RIGHT_KNEE lm) (RIGHT_ANKLE lm)) lms))
    by reflexivity.
  assert (ED : elbow_drop_median mc = median_R (map frame_elbow_height lms)) by reflexivity.
  assert (SW : stance_width_ratio_median mc = median_R (flat_map frame_stance_width lms))
    by reflexivity.
  rewrite KL, KR, ED, SW. unfold median_R. rewrite !median_none_iff.
  split; [|split; [|split; [|split; [|split; [|split]]]]].
  - intros a. apply median_R_bounds_aux. intros x Hx.
    apply in_map_iff in Hx as (lm & Hx & _). apply (angle_some_bound _ _ _ _ Hx).
  - intros a. apply median_R_bounds_aux. intros x Hx.
    apply in_map_iff in Hx as (lm & Hx & _). apply (angle_some_bound _ _ _ _ Hx).
  - intros r. apply median_R_lower. intros x Hx.
    apply in_stance in Hx as (lm & _ & Hpos & ->).
    unfold Rdiv. apply Rmult_le_pos; [apply dist_nonneg | left; apply Rinv_0_lt_compat; exact Hpos].
  - rewrite present_map_nil. split; intros H lm Hin; specialize (H lm Hin).
    + apply angle_none_iff in H. destruct H; [left | right]; assumption.
    + apply angle_none_iff. destruct H; [left | right]; assumption.
  - rewrite present_map_nil. split; intros H lm Hin; specialize (H lm Hin).
    + apply angle_none_iff in H. destruct H; [left | right]; assumption.
    + apply angle_none_iff. destruct H; [left | right]; assumption.
  - rewrite present_map_nil. split.
    + intros H. destruct lms as [|lm l]; [reflexivity|].
      specialize (H lm (or_introl eq_refl)). discriminate.
    + intros -> x [].
  - split.
    + intros H lm Hin. apply dist_zero_iff.
      destruct (Rle_lt_dec (Geometry._dist (LEFT_HIP lm) (RIGHT_HIP lm)) 0) as [Hle|Hlt].
      * pose proof (dist_nonneg (LEFT_HIP lm) (RIGHT_HIP lm)). lra.
      * exfalso.
        assert (Hx : In (Some (Geometry._dist (LEFT_ANKLE lm) (RIGHT_ANKLE lm)
                               / Geometry._dist (LEFT_HIP lm) (RIGHT_HIP lm)))
                        (flat_map frame_stance_width lms))
          by (apply in_stance; exists lm; split; [exact Hin | split; [exact Hlt | reflexivity]]).
        apply in_present in Hx. rewrite H in Hx. exact Hx.
    + intros H. destruct (present (flat_map frame_stance_width lms)) as [|x l] eqn:E;
        [reflexivity|].
      exfalso. assert (Hx : In x (present (flat_map frame_stance_width lms)))
        by (rewrite E; left; reflexivity).
      apply in_present, in_stance in Hx as (lm & Hin & Hpos & _).
      rewrite (H lm Hin) in Hpos. rewrite (proj2 (dist_zero_iff _ _) eq_refl) in Hpos. lra.
Qed.

End OverlayMetricsFacts.

(* ------------------------------------------------------------------ *)
(** ** The result of a successful job *)

Module JobResultFacts.
Import Pipeline PyStr.
Local Open Scope R_scope.

Lemma simple_auto_sport_nonempty (w h : Z) (fps : R) : simple_auto_sport w h fps <> [].
Proof.
  unfold simple_auto_sport. cbv zeta.
  destruct (Qlt_le_dec _ _); [discriminate|]. destruct (Qlt_le_dec _ _); discriminate.
Qed.

Lemma py_or_nonempty (s : option text) (d : text) : d <> [] -> py_or s d <> [].
Proof. destruct s as [[|c t]|]; simpl; auto; discriminate. Qed.

Definition running_summary : text := cps "Keep a tall posture and steady cadence.".

(** A video of two frames, none with a detected body. *)
Definition env_of (v : video) : env :=
  mk_env None (inr v) None None (inr (cps "https://example/overlay.mp4")).

(** When no frame has a detected body, a successful job still attaches the
    analysis block, with all four metrics [None] and no recommendation. *)
Theorem job_without_body_has_empty_analysis (e : env) job_id object_path
  provided_sport provided_focus (v : video) r
  (Hd : decode e = inr v) (Hnb : present (v_frames v) = [])
  (Hok : process_job_body e job_id object_path provided_sport provided_focus = inr r) :
  r_analysis r = Some (mk_metrics_calc None None None None, []).
Proof.
  revert Hok. unfold process_job_body, bindM, raise_opt. rewrite Hd.
  destruct (download_to_filename e); [discriminate|].
  destruct (run_ffmpeg e); [discriminate|].
  destruct (upload_from_filename e); [discriminate|].
  destruct (generate_signed_url e); [discriminate|].
  intros H. injection H as <-. cbn [r_analysis].
  unfold draw_pose_overlay. cbv zeta. rewrite Hnb. reflexivity.
Qed.

Lemma job_without_body_has_empty_analysis_witness :
  exists r, process_job_body (env_of (mk_video 640 480 30 [None; None])) (cps "job") (cps "uploads/a.mp4")
              None None = inr r /\
            r_analysis r = Some (mk_metrics_calc None None None None, []).
Proof.
  eexists. split; [reflexivity|].
  exact (job_without_body_has_empty_analysis (env_of (mk_video 640 480 30 [None; None]))
           (cps "job") (cps "uploads/a.mp4") None None (mk_video 640 480 30 [None; None]) _
           eq_refl eq_refl ltac:(reflexivity)).
Defined.

(** The focus fields of a successful job: with a focus that is not blank
    after [str.strip], the result carries the stripped focus (case kept) and
    always the focus tips for the resolved sport with limit 3, since the
    resolved sport is never empty; with a missing or blank focus there are
    no focus fields. *)
Theorem job_focus_fields (e : env) job_id object_path provided_sport provided_focus r
  (Hok : process_job_body e job_id object_path provided_sport provided_focus = inr r) :
  r_sport r <> [] /\
  r_focus r =
    match strip (py_or provided_focus []) with
    | [] => None
    | f => Some (f, Some (FocusRules.get_focus_recommendations (Some (r_sport r)) (Some f) 3))
    end.
Proof.
  revert Hok. unfold process_job_body, bindM, raise_opt.
  destruct (download_to_filename e); [discriminate|].
  destruct (decode e) as [x|v]; [discriminate|].
  destruct (run_ffmpeg e); [discriminate|].
  destruct (upload_from_filename e); [discriminate|].
  destruct (generate_signed_url e); [discriminate|].
  intros H. injection H as <-. cbn [r_focus r_sport].
  set (sp := py_or provided_sport _).
  assert (Hsp : sp <> []) by (apply py_or_nonempty, simple_auto_sport_nonempty).
  split; [exact Hsp|].
  destruct (strip (py_or provided_focus [])) as [|c cs]; [reflexivity|].
  destruct sp as [|x xs]; [contradiction | reflexivity].
Qed.

Lemma job_focus_fields_witness :
  exists r, process_job_body (env_of (mk_video 800 800 30 [])) (cps "job") (cps "uploads/a.mp4")
              None (Some (cps " Swing ")) = inr r /\
            r_focus r = Some (cps "Swing",
                              Some (FocusRules.get_focus_recommendations (Some (cps "tennis"))
                                      (Some (cps "swing")) 3)).
Proof.
  eexists. split; [reflexivity|].
  destruct (job_focus_fields (env_of (mk_video 800 800 30 [])) (cps "job") (cps "uploads/a.mp4")
              None (Some (cps " Swing ")) _ ltac:(reflexivity)) as [_ Hf].
  rewrite Hf. vm_compute. reflexivity.
Defined.

(** The sport hint is used verbatim for the summary and drills: any
    non-empty hint other than exactly "tennis" or "soccer" (such as
    "Tennis") is reported as the sport and gets the running summary and
    drills, although the focus lookup lower-cases and strips the same
    hint. *)
Theorem job_sport_hint_verbatim (e : env) job_id object_path (s : text) provided_focus r
  (Hne : s <> []) (Ht : s <> cps "tennis") (Hs : s <> cps "soccer")
  (Hok : process_job_body e job_id object_path (Some s) provided_focus = inr r) :
  r_sport r = s /\ r_summary r = running_summary /\
  r_drills r = g_drills (coaching_tips (cps "running")).
Proof.
  revert Hok. unfold process_job_body, bindM, raise_opt.
  destruct (download_to_filename e); [discriminate|].
  destruct (decode e) as [x|v]; [discriminate|].
  destruct (run_ffmpeg e); [discriminate|].
  destruct (upload_from_filename e); [discriminate|].
  destruct (generate_signed_url e); [discriminate|].
  intros H. injection H as <-. cbn [r_sport r_summary r_drills].
  destruct s as [|c cs]; [contradiction|]. cbn [py_or].
  unfold coaching_tips, text_eqb.
  rewrite (bool_decide_eq_false_2 _ Ht), (bool_decide_eq_false_2 _ Hs).
  split; [reflexivity | split; reflexivity].
Qed.

Lemma job_sport_hint_verbatim_witness :
  exists r, process_job_body (env_of (mk_video 800 800 30 [])) (cps "job") (cps "uploads/a.mp4")
              (Some (cps "Tennis")) (Some (cps "swing")) = inr r /\
            r_summary r = running_summary /\
            r_focus r = Some (cps "swing",
                              Some (FocusRules.get_focus_recommendations (Some (cps "tennis"))
                                      (Some (cps "swing")) 3)).
Proof.
  eexists. split; [reflexivity|]. split.
  - exact (proj1 (proj2 (job_sport_hint_verbatim (env_of (mk_video 800 800 30 [])) (cps "job")
             (cps "uploads/a.mp4") (cps "Tennis") (Some (cps "swing")) _
             ltac:(discriminate) ltac:(vm_compute; discriminate) ltac:(vm_compute; discriminate)
             ltac:(reflexivity)))).
  - vm_compute. reflexivity.
Defined.

End JobResultFacts.

(* ------------------------------------------------------------------ *)
(** ** The job store under background tasks *)

Module StoreFacts.
Import Pipeline LifecycleFacts.

(** Assignments still to be performed by the tasks. *)
Fixpoint pending (l : list (text * list write)) : nat :=
  match l with
  | [] => 0
  | (_, ws) :: r => length ws + pending r
  end.

Lemma pending_app l1 l2 : pending (l1 ++ l2) = pending l1 + pending l2.
Proof. induction l1 as [|[id ws] l1 IH]; simpl; [reflexivity | rewrite IH; lia]. Qed.

Lemma split_pending (l : list (text * list write)) :
  Forall (fun t => snd t = []) l \/
  exists t1 t2 id w ws, l = t1 ++ (id, w :: ws) :: t2.
Proof.
  induction l as [|[id [|w ws]] l IH].
  - left. constructor.
  - destruct IH as [H | (t1 & t2 & id' & w & ws & ->)].
    + left. constructor; [reflexivity | exact H].
    + right. exists ((id, []) :: t1), t2, id', w, ws. reflexivity.
  - right. exists [], l, id, w, ws. reflexivity.
Qed.

Lemma run_write_dom (m : gmap text job) id w id' :
  run_write id w m !! id' = None <-> m !! id' = None.
Proof.
  unfold run_write. destruct (m !! id) as [j|] eqn:E; [|tauto].
  destruct (decide (id = id')) as [<-|Hne].
  - rewrite lookup_insert_eq, E. split; discriminate.
  - rewrite lookup_insert_ne by exact Hne. tauto.
Qed.

Lemma drain (n : nat) (s : server) :
  inv s -> pending (tasks s) = n ->
  exists s', rtc step s s' /\ Forall (fun t => snd t = []) (tasks s') /\
    (forall id, JOBS s' !! id = None <-> JOBS s !! id = None).
Proof.
  revert s. induction n as [|n IH]; intros s Hinv Hp;
    (destruct (split_pending (tasks s)) as [Hall | (t1 & t2 & id & w & ws & Ht)];
     [exists s; split; [apply rtc_refl | split; [exact Hall | tauto]]|]).
  - rewrite Ht, pending_app in Hp. simpl in Hp. lia.
  - set (s1 := mk_server (run_write id w (JOBS s)) (t1 ++ (id, ws) :: t2)).
    assert (Hst : step s s1) by (apply step_task; exact Ht).
    destruct (IH s1 (inv_step s s1 Hinv Hst)) as (s' & Hs' & Hall & Hdom).
    { unfold s1. simpl. rewrite Ht, pending_app in Hp. rewrite pending_app. simpl in *. lia. }
    exists s'. split; [apply (rtc_l _ _ s1); assumption|]. split; [exact Hall|].
    intros id'. rewrite Hdom. apply run_write_dom.
Qed.

(** Running the pending background tasks to their end, with no new job,
    leaves every job of the store with a terminal status and a result; no
    job stays PROCESSING or without a result once its task has run. *)
Theorem pending_tasks_complete_every_job (s : server) (Hr : reachable s) :
  exists s', rtc step s s' /\
    (forall id, JOBS s' !! id = None <-> JOBS s !! id = None) /\
    (forall id j, JOBS s' !! id = Some j -> j_status j <> PROCESSING /\ j_result j <> None).
Proof.
  pose proof (reachable_inv s Hr) as Hinv.
  destruct (drain (pending (tasks s)) s Hinv eq_refl) as (s' & Hs' & Hall & Hdom).
  exists s'. split; [exact Hs'|]. split; [exact Hdom|].
  intros id j Hj. destruct (inv_rtc s s' Hinv Hs') as [_ Hjob Htask].
  destruct (Hjob id j Hj) as (ws & Hin).
  assert (Hws : ws = []) by (apply (proj1 (List.Forall_forall _ _) Hall (id, ws) Hin)).
  subst ws. destruct (Htask id [] Hin) as (j0 & Hj0 & Hc).
  rewrite Hj in Hj0. injection Hj0 as <-.
  destruct Hc as [(_ & _ & st & r & E & _) | [(_ & _ & r & E) | (H1 & H2 & _)]];
    [discriminate | discriminate | split; assumption].
Qed.

Lemma pending_tasks_complete_every_job_witness :
  exists s', rtc step s1 s' /\
    (forall j, JOBS s' !! jid = Some j -> j_status j <> PROCESSING).
Proof.
  destruct (pending_tasks_complete_every_job s1 (rtc_once _ _ step_s1)) as (s' & Hs' & _ & H).
  exists s'. split; [exact Hs'|]. intros j Hj. exact (proj1 (H jid j Hj)).
Defined.

(** Which result goes with which terminal status. *)
Definition matches (st : status) (r : result_value) : Prop :=
  match st, r with
  | DONE, RDone _ => True
  | ERROR, RError _ _ => True
  | _, _ => False
  end.

Definition task_ok (m : gmap text job) (id : text) (ws : list write) : Prop :=
  match ws with
  | [WStatus st; WResult r] => matches st r
  | [WResult r] => forall j, m !! id = Some j -> matches (j_status j) r
  | _ => True
  end.

Record kinds (s : server) : Prop := {
  kinds_task : forall id ws, In (id, ws) (tasks s) -> task_ok (JOBS s) id ws;
  kinds_job : forall id j r, JOBS s !! id = Some j -> j_result j = Some r -> matches (j_status j) r
}.

Lemma task_ok_same (m m' : gmap text job) id ws :
  m' !! id = m !! id -> task_ok m id ws -> task_ok m' id ws.
Proof.
  intros E. unfold task_ok.
  destruct ws as [|[st|r] [|[st2|r2] [|w3 ws]]]; try tauto.
  intros H j Hj. rewrite E in Hj. exact (H j Hj).
Qed.

Lemma process_job_matches e job_id object_path provided_sport provided_focus :
  exists st r, process_job e job_id object_path provided_sport provided_focus
               = [WStatus st; WResult r] /\ matches st r.
Proof.
  unfold process_job.
  destruct (process_job_body _ _ _ _ _) as [[err|msg]|r];
    do 2 eexists; split; first [reflexivity | exact I].
Qed.

Lemma kinds_init : kinds init.
Proof.
  split; simpl.
  - intros id ws [].
  - intros id j r H. rewrite lookup_empty in H. discriminate.
Qed.

Lemma kinds_step s s' : inv s -> kinds s -> step s s' -> kinds s'.
Proof.
  intros [Hnd Hjob Htask] [Kt Kj] Hst. destruct Hst as
    [s id path psport pfocus e Hfresh Hpath | s t1 t2 id w ws Ht].
  - split; simpl.
    + intros id' ws' Hin. apply in_app_iff in Hin as [Hin | [Heq | []]].
      * apply (task_ok_same (JOBS s)); [|exact (Kt id' ws' Hin)].
        destruct (Htask id' ws' Hin) as (j & Hj & _).
        apply lookup_insert_ne. congruence.
      * injection Heq as <- <-.
        destruct (process_job_matches e id path psport pfocus) as (st & r & -> & Hm).
        exact Hm.
    + intros id' j r Hj Hr. destruct (decide (id = id')) as [<-|Hne].
      * rewrite lookup_insert_eq in Hj. injection Hj as <-. discriminate.
      * rewrite lookup_insert_ne in Hj by exact Hne. exact (Kj id' j r Hj Hr).
  - assert (Hin0 : In (id, w :: ws) (tasks s)) by (rewrite Ht; apply in_middle; left; reflexivity).
    destruct (Htask id (w :: ws) Hin0) as (j0 & Hj0 & Hc0).
    pose proof (Kt id (w :: ws) Hin0) as K0.
    assert (Hout : ~ In id (map fst (t1 ++ t2))).
    { rewrite map_app. apply NoDup_remove_2. rewrite Ht, map_app in Hnd. exact Hnd. }
    unfold run_write. rewrite Hj0.
    split; simpl.
    + intros id' ws' Hin. apply in_middle in Hin as [Heq | Hin].
      * injection Heq as -> ->.
        destruct Hc0 as [(Hs & Hr & st & r & E & Hst) | [(Hs & Hr & r & E) | (_ & _ & E)]];
          [| |discriminate].
        -- injection E as -> ->. simpl in K0 |- *. intros j Hj.
           rewrite lookup_insert_eq in Hj. injection Hj as <-. exact K0.
        -- injection E as -> ->. exact I.
      * assert (Hne : id' <> id).
        { intros ->. apply Hout. apply in_map_iff. exists (id, ws'). split; [reflexivity | exact Hin]. }
        apply (task_ok_same (JOBS s)); [apply lookup_insert_ne; congruence|].
        apply Kt. rewrite Ht. apply in_middle. right. exact Hin.
    + intros id' j r Hj Hr. destruct (decide (id = id')) as [<-|Hne].
      * rewrite lookup_insert_eq in Hj. injection Hj as <-.
        destruct Hc0 as [(Hs & Hr0 & st & r0 & E & Hst) | [(Hs & Hr0 & r0 & E) | (_ & _ & E)]];
          [| |discriminate].
        -- injection E as -> ->. simpl in Hr. congruence.
        -- injection E as -> ->. simpl in Hr |- *. injection Hr as <-.
           exact (K0 j0 Hj0).
      * rewrite lookup_insert_ne in Hj by exact Hne. exact (Kj id' j r Hj Hr).
Qed.

Lemma reachable_kinds s : reachable s -> kinds s.
Proof.
  intros H. pose proof kinds_init as K. pose proof inv_init as I0. unfold reachable in H.
  induction H as [|x y z Hxy _ IH]; [exact K|].
  apply IH; [apply (kinds_step x y I0 K Hxy) | apply (inv_step x y I0 Hxy)].
Qed.

(** In every reachable state the result stored with a job agrees with its
    status: a DONE job's result is the success payload, an ERROR job's
    result is the error dict, and a PROCESSING job has none. *)
Theorem result_kind_matches_status (s : server) (id : text) (j : job) (r : result_value)
  (Hr : reachable s) (Hj : JOBS s !! id = Some j) (Hres : j_result j = Some r) :
  (j_status j = DONE /\ exists p, r = RDone p) \/
  (j_status j = ERROR /\ exists msg stderr, r = RError msg stderr).
Proof.
  pose proof (kinds_job s (reachable_kinds s Hr) id j r Hj Hres) as M.
  unfold matches in M. destruct (j_status j), r as [p|msg se]; try contradiction.
  - left. split; [reflexivity | exists p; reflexivity].
  - right. split; [reflexivity | exists msg, se; reflexivity].
Qed.

Lemma reachable_s3 : reachable s3.
Proof. unfold reachable. eapply rtc_r; [exact reachable_s2 | exact step_s3]. Qed.

Lemma result_kind_matches_status_witness :
  (ERROR = DONE /\ exists p, err_404 = RDone p) \/
  (ERROR = ERROR /\ exists msg stderr, err_404 = RError msg stderr).
Proof.
  exact (result_kind_matches_status s3 jid (mk_job ERROR jpath (Some err_404)) err_404
           reachable_s3 ltac:(reflexivity) eq_refl).
Defined.

(** Every job in a reachable store has a non-empty object path:
    [create_job] refuses a missing or empty [objectPath] and no assignment
    of the background task touches it. *)
Theorem stored_object_path_nonempty (s : server) (id : text) (j : job)
  (Hr : reachable s) (Hj : JOBS s !! id = Some j) :
  j_object_path j <> [].
Proof.
  revert id j Hj. unfold reachable in Hr.
  assert (P0 : forall id j, JOBS init !! id = Some j -> j_object_path j <> [])
    by (intros id j H; simpl in H; rewrite lookup_empty in H; discriminate).
  induction Hr as [|x y z Hxy _ IH]; [exact P0|].
  apply IH. intros id j Hj. destruct Hxy as
    [x id0 path psport pfocus e Hfresh Hpath | x t1 t2 id0 w ws Ht]; simpl in Hj.
  - destruct (decide (id0 = id)) as [<-|Hne].
    + rewrite lookup_insert_eq in Hj. injection Hj as <-. exact Hpath.
    + rewrite lookup_insert_ne in Hj by exact Hne. exact (P0 id j Hj).
  - unfold run_write in Hj. destruct (JOBS x !! id0) as [j0|] eqn:E0; [|exact (P0 id j Hj)].
    destruct (decide (id0 = id)) as [<-|Hne].
    + rewrite lookup_insert_eq in Hj. injection Hj as <-.
      destruct w; simpl; exact (P0 id0 j0 E0).
    + rewrite lookup_insert_ne in Hj by exact Hne. exact (P0 id j Hj).
Qed.

Lemma stored_object_path_nonempty_witness : jpath <> [].
Proof.
  exact (stored_object_path_nonempty s3 jid (mk_job ERROR jpath (Some err_404))
           reachable_s3 ltac:(reflexivity)).
Defined.

End StoreFacts.

(* ------------------------------------------------------------------ *)
(** ** pose_overlay.py: [_estimate_simple_metrics]; sport_detect.py:
    the frame cap of [detect_sport_from_gcs] *)

Module SimpleMetricsFacts.
Import PoseOverlayMetrics RecommendationFacts MotionFacts.
Local Open Scope R_scope.

(** The knee angle of one frame. *)
Definition knee (lm : landmarks) : R :=
  PoseOverlay._angle (LEFT_HIP lm) (LEFT_KNEE lm) (LEFT_ANKLE lm).

Lemma po_angle_bound (a b c : Geometry.point) : 0 <= PoseOverlay._angle a b c <= 180.
Proof. unfold PoseOverlay._angle. cbv zeta. apply GeometryFacts.degrees_acos_bound. Qed.

Lemma fold_left_Rplus (l : list R) (a : R) :
  fold_left Rplus l a = a + fold_right Rplus 0 l.
Proof.
  revert a. induction l as [|x l IH]; intros a; simpl; [ring|].
  rewrite IH. ring.
Qed.

Lemma sum_bounds (l : list R) :
  (forall x, In x l -> 0 <= x <= 180) ->
  0 <= fold_right Rplus 0 l <= 180 * INR (length l).
Proof.
  induction l as [|x l IH]; intros H; cbn [fold_right length]; [simpl; lra|].
  rewrite S_INR. pose proof (H x (or_introl eq_refl)).
  assert (Hl : 0 <= fold_right Rplus 0 l <= 180 * INR (length l))
    by (apply IH; intros y Hy; apply H; right; exact Hy).
  lra.
Qed.

Lemma sum_zero (l : list R) :
  (forall x, In x l -> 0 <= x) ->
  (fold_right Rplus 0 l = 0 <-> forall x, In x l -> x = 0).
Proof.
  induction l as [|x l IH]; intros H; simpl; [split; [intros _ y []|reflexivity]|].
  assert (Hx : 0 <= x) by (apply H; left; reflexivity).
  assert (IH' := IH (fun y Hy => H y (or_intror Hy))).
  assert (Hs : 0 <= fold_right Rplus 0 l).
  { clear IH IH'. induction l as [|y l IHl]; simpl; [lra|].
    assert (0 <= y) by (apply H; right; left; reflexivity).
    assert (0 <= fold_right Rplus 0 l) by (apply IHl; intros z [<-|Hz]; [exact Hx | apply H; right; right; exact Hz]).
    lra. }
  split.
  - intros E y [<-|Hy]; [lra|]. apply (proj1 IH'); [lra | exact Hy].
  - intros Hall. rewrite (Hall x (or_introl eq_refl)).
    rewrite (proj2 IH' (fun y Hy => Hall y (or_intror Hy))). ring.
Qed.

(** [round(x, 1)] moves [10 x] by at most one half. *)
Lemma py_round1_near (x : R) :
  exists n : Z, py_round1 x = IZR n / 10 /\ x * 10 - 1/2 <= IZR n <= x * 10 + 1/2.
Proof.
  unfold py_round1. cbv zeta.
  pose proof (base_Int_part (x * 10)) as [H1 H2].
  set (f := Int_part (x * 10)) in *.
  destruct (Rlt_dec (x * 10 - IZR f) (1/2)) as [Hlt|Hnlt].
  - exists f. split; [reflexivity | lra].
  - destruct (Rlt_dec (1/2) (x * 10 - IZR f)) as [Hgt|Hngt].
    + exists (f + 1)%Z. split; [reflexivity|]. rewrite plus_IZR. lra.
    + apply Rnot_lt_le in Hnlt. apply Rnot_lt_le in Hngt.
      destruct (Z.even f); [exists f | exists (f + 1)%Z]; (split; [reflexivity|]);
        rewrite ?plus_IZR; lra.
Qed.

Lemma py_round1_range (x : R) : 0 <= x <= 180 -> 0 <= py_round1 x <= 180.
Proof.
  intros Hx. destruct (py_round1_near x) as (n & -> & Hn).
  assert (Hlo : (-1 < n)%Z) by (apply lt_IZR; lra).
  assert (Hhi : (n < 1801)%Z) by (apply lt_IZR; lra).
  assert (H0 : 0 <= IZR n) by (apply IZR_le; lia).
  assert (H1 : IZR n <= 1800) by (apply IZR_le; lia).
  lra.
Qed.

Lemma avg_knee_eq (lm0 : landmarks) (l : list landmarks) :
  avg_knee_angle_left (_estimate_simple_metrics (lm0 :: l)) =
  let a := fold_right Rplus 0 (map knee (lm0 :: l)) / INR (length (lm0 :: l)) in
  if Pipeline.truthy a then Some (py_round1 a) else None.
Proof.
  unfold _estimate_simple_metrics. cbn zeta. cbn [map avg_knee_angle_left].
  rewrite fold_left_Rplus, Rplus_0_l. cbn [length]. rewrite length_map. reflexivity.
Qed.

Lemma filter_length_mono {A} (f g : A -> bool) (l : list A) :
  (forall x, f x = true -> g x = true) ->
  (length (List.filter f l) <= length (List.filter g l))%nat.
Proof.
  intros H. induction l as [|x l IH]; simpl; [lia|].
  destruct (f x) eqn:Ef; [rewrite (H x Ef); simpl; lia|].
  destruct (g x); simpl; lia.
Qed.

Lemma length_filter_bound {A} (f : A -> bool) (l : list A) :
  (length (List.filter f l) <= length l)%nat.
Proof. induction l as [|x l IH]; simpl; [lia|]. destruct (f x); simpl; lia. Qed.

(** The summary of [_estimate_simple_metrics]: the arm-extension count
    never exceeds the number of frames; a reported average knee angle
    lies in [0, 180] degrees; and the average is [None] exactly when every
    frame's knee angle is 0 (in particular for no frames at all), since a
    zero average is falsy in [round(avg_knee, 1) if avg_knee else None]. *)
Theorem estimate_simple_metrics_ranges (l : list landmarks) :
  (arm_extension_frames (_estimate_simple_metrics l) <= length l)%nat /\
  (forall a, avg_knee_angle_left (_estimate_simple_metrics l) = Some a -> 0 <= a <= 180) /\
  (avg_knee_angle_left (_estimate_simple_metrics l) = None <->
   forall lm, In lm l -> knee lm = 0).
Proof.
  destruct l as [|lm0 l].
  - simpl. split; [lia|]. split; [discriminate|]. split; [intros _ lm []|reflexivity].
  - assert (Hb : forall x, In x (map knee (lm0 :: l)) -> 0 <= x <= 180).
    { intros x Hx. apply in_map_iff in Hx as (lm & <- & _). apply po_angle_bound. }
    pose proof (sum_bounds _ Hb) as Hs. rewrite length_map in Hs.
    assert (Hn : 0 < INR (length (lm0 :: l))) by (apply lt_0_INR; simpl; lia).
    set (s := fold_right Rplus 0 (map knee (lm0 :: l))) in *.
    set (n := INR (length (lm0 :: l))) in *.
    assert (Hmean : 0 <= s / n <= 180).
    { unfold Rdiv. split.
      - apply Rmult_le_pos; [lra | left; apply Rinv_0_lt_compat; exact Hn].
      - apply (Rmult_le_reg_r n); [exact Hn|].
        rewrite Rmult_assoc, Rinv_l by lra. lra. }
    split; [|split].
    + unfold _estimate_simple_metrics. cbn [arm_extension_frames].
      apply length_filter_bound.
    + intros a. rewrite avg_knee_eq. cbv zeta. fold s n.
      destruct (Pipeline.truthy (s / n)); [|discriminate].
      intros E. injection E as <-. apply py_round1_range. exact Hmean.
    + rewrite avg_knee_eq. cbv zeta. fold s n. unfold Pipeline.truthy.
      destruct (Req_EM_T (s / n) 0) as [E|E].
      * split; [intros _|reflexivity].
        assert (Es : s = 0).
        { assert (s = s / n * n) by (field; lra). rewrite E, Rmult_0_l in H. exact H. }
        intros lm Hlm. apply (proj1 (sum_zero _ (fun x Hx => proj1 (Hb x Hx))) Es).
        apply in_map. exact Hlm.
      * split; [discriminate|]. intros Hall. exfalso. apply E.
        assert (Es : s = 0).
        { apply (proj2 (sum_zero _ (fun x Hx => proj1 (Hb x Hx)))).
          intros x Hx. apply in_map_iff in Hx as (lm & <- & Hlm). exact (Hall lm Hlm). }
        rewrite Es. unfold Rdiv. ring.
Qed.

(** When [_guess_sport_from_pose_series] answers "tennis", the same frames
    give [_estimate_simple_metrics] at least 6 arm-extension frames: every
    hit has a horizontal elbow reach above 0.15. *)
Theorem tennis_guess_has_arm_extension (l : list landmarks)
  (H : PoseOverlay._guess_sport_from_pose_series l = cps "tennis") :
  (6 <= arm_extension_frames (_estimate_simple_metrics l))%nat.
Proof.
  destruct l as [|lm0 l]; [vm_compute in H; discriminate|].
  unfold PoseOverlay._guess_sport_from_pose_series in H.
  destruct (Nat.leb _ _) eqn:E; [|exfalso; exact (labels_distinct (eq_sym H))].
  apply Nat.leb_le in E.
  unfold _estimate_simple_metrics. cbn [arm_extension_frames].
  eapply Nat.le_trans; [|apply filter_length_mono with (f := PoseOverlay.is_hit)].
  - lia.
  - intros lm Hlm. apply po_is_hit_iff in Hlm. cbv zeta in Hlm.
    apply Rltb_iff. tauto.
Qed.

Lemma tennis_guess_has_arm_extension_witness :
  (6 <= arm_extension_frames (_estimate_simple_metrics (repeat L_hit 6)))%nat.
Proof.
  apply tennis_guess_has_arm_extension.
  unfold PoseOverlay._guess_sport_from_pose_series.
  rewrite filter_repeat, po_L_hit.
  reflexivity.
Defined.

(** [detect_sport_from_gcs] stops after [max_frames] = 120 frames: its
    answer depends only on the first 120 frames of the video, and frames
    after those are never read. *)
Theorem detect_sport_reads_first_120_frames (video : list (option landmarks)) :
  SportDetect.detect_sport_from_gcs video =
  SportDetect.detect_sport_from_gcs (firstn 120 video).
Proof.
  unfold SportDetect.detect_sport_from_gcs.
  rewrite !scan_spec by (unfold SportDetect.max_frames; lia).
  unfold SportDetect.max_frames. rewrite firstn_firstn, Nat.min_id. reflexivity.
Qed.

End SimpleMetricsFacts.

(* ------------------------------------------------------------------ *)
(** ** main.py: [simple_auto_sport] depends on the aspect ratio only *)

Module ShapeLabelFacts.
Local Open Scope Q_scope.

Lemma label_Qeq (x y : Q) : x == y ->
  (if Qlt_le_dec x (4 # 5) then cps "running"
   else if Qlt_le_dec (8 # 5) x then cps "soccer" else cps "tennis") =
  (if Qlt_le_dec y (4 # 5) then cps "running"
   else if Qlt_le_dec (8 # 5) y then cps "soccer" else cps "tennis").
Proof.
  intros E.
  destruct (Qlt_le_dec x (4 # 5)) as [H1|H1], (Qlt_le_dec y (4 # 5)) as [H2|H2];
    rewrite E in H1; try (exfalso; apply (Qlt_not_le _ _ H1 H2) || apply (Qlt_not_le _ _ H2 H1)).
  - reflexivity.
  - destruct (Qlt_le_dec (8 # 5) x) as [H3|H3], (Qlt_le_dec (8 # 5) y) as [H4|H4];
      rewrite E in H3; try reflexivity; exfalso;
      first [exact (Qlt_not_le _ _ H3 H4) | exact (Qlt_not_le _ _ H4 H3)].
Qed.

(** The shape label of [simple_auto_sport] depends only on the aspect
    ratio: scaling width and height by the same positive factor keeps it;
    a height of 0 is read as 1 ([height or 1]). *)
Theorem shape_label_scale_invariant (w h k : Z) (fps : R)
  (Hk : (0 < k)%Z) (Hh : h <> 0%Z) :
  simple_auto_sport (k * w) (k * h) fps = simple_auto_sport w h fps /\
  simple_auto_sport w 0 fps = simple_auto_sport w 1 fps.
Proof.
  split; [|reflexivity].
  unfold simple_auto_sport. cbv zeta.
  assert (Ekh : Z.eqb (k * h) 0 = false) by (apply Z.eqb_neq; nia).
  assert (Eh : Z.eqb h 0 = false) by (apply Z.eqb_neq; exact Hh).
  rewrite Ekh, Eh. apply label_Qeq.
  rewrite !inject_Z_mult. field. split.
  - intros Z0. apply Hh. apply inject_Z_injective. exact Z0.
  - intros Z0. assert (Ek : k = 0%Z) by (apply inject_Z_injective; exact Z0). lia.
Qed.

Lemma shape_label_scale_invariant_witness :
  simple_auto_sport (3 * 400) (3 * 800) 30 = simple_auto_sport 400 800 30 /\
  simple_auto_sport 400 0 30 = simple_auto_sport 400 1 30.
Proof. apply shape_label_scale_invariant; [reflexivity | discriminate]. Defined.

End ShapeLabelFacts.
